(** * skybox.py: equirectangular HDR panorama to six cubemap faces

    A shallow embedding of [exr_to_cubemap] (src/skybox.py) and the
    properties its specification states about it.

    Numbers.  Python's [float] and numpy's [float32]/[float64] are idealised
    as the real numbers [R] of the Standard Library: every arithmetic
    expression of the source is kept operator by operator, but rounding,
    overflow, signed zeros and NaN are outside the model.  The single place
    where finite inputs produce a NaN, the division [vec / norm] by a zero
    norm, is modelled by the exception that NaN triggers a few lines later
    ([int(nan)] raises [ValueError]).  Python [int]s are [Z].

    Arrays.  A numpy array of shape [(n, m, 3)] is its two leading extents
    together with the function from a (row, column) pair to the triple stored
    there; indexing follows Python (a negative index counts from the end, an
    index out of range raises [IndexError]).

    Effects.  Exceptions are the [Raise] branch of [result]; what the run
    prints, allocates and hands to the image writer is appended to a log that
    is threaded through the top-level function. *)

From Stdlib Require Import Reals Lra Lia ZArith List String Bool.
Import ListNotations.

Open Scope R_scope.

(* ================================================================== *)
(** ** Python: exceptions, [int()], [range], [for] *)

Module Py.

Inductive exn : Type :=
| ValueError
| IndexError
| Cv2Error.

Inductive result (A : Type) : Type :=
| Ok (a : A)
| Raise (e : exn).

Arguments Ok {A} a.
Arguments Raise {A} e.

Definition bind {A B : Type} (c : result A) (k : A -> result B) : result B :=
  match c with
  | Ok a => k a
  | Raise e => Raise e
  end.

(** [int(x)] on a float truncates toward zero. *)
Definition int (x : R) : Z :=
  if Rle_dec 0 x then Int_part x else (- Int_part (- x))%Z.

(** [a // b] on integers rounds toward minus infinity, as [Z.div] does for
    a positive divisor. *)
Definition floordiv (a b : Z) : Z := (a / b)%Z.

(** [range(n)] is [0, 1, ..., n-1], empty when [n <= 0]. *)
Definition range (n : Z) : list Z := map Z.of_nat (seq 0 (Z.to_nat n)).

(** [for i in l: s = body(i, s)], leaving at the first exception. *)
Fixpoint for_each {S : Type} (l : list Z) (body : Z -> S -> result S) (s : S)
  : result S :=
  match l with
  | [] => Ok s
  | i :: l' =>
      match body i s with
      | Ok s' => for_each l' body s'
      | Raise e => Raise e
      end
  end.

End Py.

Import Py.

Notation "x <- c ;; k" := (Py.bind c (fun x => k))
  (at level 61, c at next level, right associativity).

(* ================================================================== *)
(** ** numpy: arrays and the element-wise functions the program calls *)

Module Np.

Record ndarray (A : Type) : Type := mk_ndarray {
  shape0 : Z;
  shape1 : Z;
  item : Z -> Z -> A
}.

Arguments mk_ndarray {A} shape0 shape1 item.
Arguments shape0 {A} n.
Arguments shape1 {A} n.
Arguments item {A} n i j.

(** Python indexing along one axis of extent [n]. *)
Definition index (n i : Z) : result Z :=
  let i' := if (i <? 0)%Z then (i + n)%Z else i in
  if ((0 <=? i') && (i' <? n))%Z%bool then Ok i' else Raise IndexError.

(** [a[i, j]] *)
Definition getitem {A : Type} (a : ndarray A) (i j : Z) : result A :=
  i' <- index (shape0 a) i ;;
  j' <- index (shape1 a) j ;;
  Ok (item a i' j').

(** [a[i, j] = v] *)
Definition setitem {A : Type} (a : ndarray A) (i j : Z) (v : A)
  : result (ndarray A) :=
  i' <- index (shape0 a) i ;;
  j' <- index (shape1 a) j ;;
  Ok (mk_ndarray (shape0 a) (shape1 a)
        (fun r c => if ((r =? i') && (c =? j'))%Z%bool then v
                    else item a r c)).

Definition map3 {A B : Type} (f : A -> B) (p : A * A * A) : B * B * B :=
  let '(a, b, c) := p in (f a, f b, f c).

(** An element-wise operation on an array whose last axis has length 3. *)
Definition elementwise {A B : Type} (f : A -> B) (a : ndarray (A * A * A))
  : ndarray (B * B * B) :=
  mk_ndarray (shape0 a) (shape1 a) (fun i j => map3 f (item a i j)).

(** [np.stack([r, g, b], axis=-1)] of three planes of one shape. *)
Definition stack3 {A : Type} (n m : Z) (r g b : Z -> Z -> A)
  : ndarray (A * A * A) :=
  mk_ndarray n m (fun i j => (r i j, g i j, b i j)).

(** [a * k] *)
Definition mul_scalar (a : ndarray (R * R * R)) (k : R) : ndarray (R * R * R) :=
  elementwise (fun x => x * k) a.

(** [np.clip(a, lo, hi)], that is [minimum(hi, maximum(a, lo))]. *)
Definition clip (a : ndarray (R * R * R)) (lo hi : R) : ndarray (R * R * R) :=
  elementwise (fun x => Rmin hi (Rmax x lo)) a.

(** [x ** y] for a base [0 <= x] and an exponent [0 < y], the only use the
    program makes of it: [exp (y * ln x)] for a positive base and [0] for
    the base [0].  (A negative base gives NaN in numpy; the program clips
    to [0, 1] before it takes the power.) *)
Definition pow (x y : R) : R := if Rlt_dec 0 x then Rpower x y else 0.

(** [np.power(a, y)] *)
Definition power (a : ndarray (R * R * R)) (y : R) : ndarray (R * R * R) :=
  elementwise (fun x => pow x y) a.

(** The cast of one float to [uint8]: truncation toward zero, then the
    wrap-around of an 8-bit unsigned integer. *)
Definition uint8 (x : R) : Z := (Py.int x mod 256)%Z.

(** [a.astype(np.uint8)] *)
Definition astype_uint8 (a : ndarray (R * R * R)) : ndarray (Z * Z * Z) :=
  elementwise uint8 a.

(** [np.zeros((n, n, 3), dtype=np.uint8)]: a negative extent is refused. *)
Definition zeros (n : Z) : result (ndarray (Z * Z * Z)) :=
  if (n <? 0)%Z then Raise ValueError
  else Ok (mk_ndarray n n (fun _ _ => (0, 0, 0)%Z)).

(** [np.linalg.norm] of a 3-vector. *)
Definition linalg_norm (vec : R * R * R) : R :=
  let '(x, y, z) := vec in sqrt (x * x + y * y + z * z).

(** [vec / n], called with the norm of [vec] for [n].  Over the reals the
    norm is zero for the zero vector only, whose quotient is NaN in every
    component; [int()] refuses NaN with [ValueError] when the pixel index is
    taken, and the exception is raised here.  In floating point the norm of
    a non-zero vector can also underflow to zero (with the same
    [ValueError]) or overflow; the vectors of the face loops have one
    component 1 or -1 and the other two in (-1, 1), so their norm lies
    between 1 and 2. *)
Definition vec_div (vec : R * R * R) (n : R) : result (R * R * R) :=
  if Req_dec_T n 0 then Raise ValueError
  else Ok (map3 (fun c => c / n) vec).

(** [np.arctan2(x1, x2)]: the angle of the point with ordinate [x1] and
    abscissa [x2], in (-PI, PI].  numpy also reads the sign of a zero
    argument: [arctan2(-0.0, x2)] is [-pi] for a negative [x2], and
    [arctan2(0.0, -0.0)] is [pi]; the reals have one zero and give [PI] and
    [0] there.  In the first case the two angles are the two ends of the
    same seam of the panorama. *)
Definition arctan2 (x1 x2 : R) : R :=
  if Rlt_dec 0 x2 then atan (x1 / x2)
  else if Rlt_dec x2 0 then
         (if Rle_dec 0 x1 then atan (x1 / x2) + PI else atan (x1 / x2) - PI)
  else if Rlt_dec 0 x1 then PI / 2
  else if Rlt_dec x1 0 then - (PI / 2)
  else 0.

(** [np.arcsin], on [-1, 1]. *)
Definition arcsin (x : R) : R := asin x.

End Np.

Import Np.

(* ================================================================== *)
(** ** OpenCV: the one conversion the program calls *)

Module Cv2.

(** [cv2.cvtColor(img, cv2.COLOR_BGR2RGB)]: the first and the third
    channel of every pixel change places; OpenCV refuses an empty image. *)
Definition cvtColor_BGR2RGB {A : Type} (img : ndarray (A * A * A))
  : result (ndarray (A * A * A)) :=
  if ((shape0 img <=? 0) || (shape1 img <=? 0))%Z%bool then Raise Cv2Error
  else Ok (mk_ndarray (shape0 img) (shape1 img)
             (fun i j => let '(c0, c1, c2) := item img i j in (c2, c1, c0))).

End Cv2.

(* ================================================================== *)
(** ** The program *)

(** An 8-bit pixel and a floating-point pixel, channel 0 first. *)
Definition pixel : Type := (Z * Z * Z)%type.
Definition hdr_pixel : Type := (R * R * R)%type.

(** What the run does to the outside world, in order. *)
Inductive event : Type :=
| PrintAutoDetected (size width height : Z)
| PrintGenerating (face_size : Z)
| AllocFace (face_size : Z)
| Makedirs
| SaveJpg (name : string) (img : ndarray pixel)
| PrintSaved (name : string)
| PrintDone.

(** A computation that appends to the log and returns or raises. *)
Definition M (A : Type) : Type := list event -> list event * result A.

Definition ret {A : Type} (a : A) : M A := fun log => (log, Ok a).

Definition bindM {A B : Type} (c : M A) (k : A -> M B) : M B :=
  fun log =>
    match c log with
    | (log', Ok a) => k a log'
    | (log', Raise e) => (log', Raise e)
    end.

Definition emit (e : event) : M unit := fun log => (log ++ [e], Ok tt).

Definition lift {A : Type} (r : result A) : M A := fun log => (log, r).

Notation "x <~ c ;; k" := (bindM c (fun x => k))
  (at level 61, c at next level, right associativity).

(** [for k, v in d.items(): body(k, v)] *)
Fixpoint for_items {V : Type} (d : list (string * V)) (body : string -> V -> M unit)
  : M unit :=
  match d with
  | [] => ret tt
  | (k, v) :: d' => _ <~ body k v ;; for_items d' body
  end.

(** [d[k] = v] on a dict, which keeps its keys in insertion order. *)
Fixpoint dict_set {V : Type} (d : list (string * V)) (k : string) (v : V)
  : list (string * V) :=
  match d with
  | [] => [(k, v)]
  | (k', v') :: d' =>
      if String.eqb k' k then (k, v) :: d' else (k', v') :: dict_set d' k v
  end.

(** [d[k]] *)
Fixpoint dict_get {V : Type} (d : list (string * V)) (k : string) : option V :=
  match d with
  | [] => None
  | (k', v) :: d' => if String.eqb k' k then Some v else dict_get d' k
  end.

(** The opened file: the data window of its header and the planes of the
    channels R, G and B as [reshape(height, width)] leaves them. *)
Record exr_file : Type := mk_exr_file {
  dw_min_x : Z;
  dw_min_y : Z;
  dw_max_x : Z;
  dw_max_y : Z;
  channel_R : Z -> Z -> R;
  channel_G : Z -> Z -> R;
  channel_B : Z -> Z -> R
}.

Definition exr_width (exr : exr_file) : Z := (dw_max_x exr - dw_min_x exr + 1)%Z.
Definition exr_height (exr : exr_file) : Z := (dw_max_y exr - dw_min_y exr + 1)%Z.

(** Lines 18-20: the face size. *)
Definition resolve_size (width height : Z) (size : option Z) : M Z :=
  match size with
  | None =>
      let size := Py.floordiv height 2 in
      _ <~ emit (PrintAutoDetected size width height) ;;
      ret size
  | Some size => ret size
  end.

(** Lines 32-34: tonemap HDR -> LDR. *)
Definition tonemap (hdr : ndarray hdr_pixel) : ndarray pixel :=
  let hdr := Np.clip (Np.mul_scalar hdr 1.5) 0 1 in
  let hdr := Np.power hdr (1 / 2.2) in
  Np.astype_uint8 (Np.mul_scalar hdr 255).

(** Lines 41-42: the direction scaled to unit length. *)
Definition normalize (x y z : R) : result (R * R * R) :=
  let vec := (x, y, z) in
  Np.vec_div vec (Np.linalg_norm vec).

(** Lines 44-45: the texture coordinates of a direction. *)
Definition tex_coords (vec : R * R * R) : R * R :=
  let '(vec0, vec1, vec2) := vec in
  let u := 0.5 + Np.arctan2 vec0 vec2 / (2 * PI) in
  let v := 0.5 - Np.arcsin vec1 / PI in
  (u, v).

(** Lines 47-48: the source pixel [(py, px)] of texture coordinates. *)
Definition pixel_index (w h : Z) (uv : R * R) : Z * Z :=
  let '(u, v) := uv in
  let px := Py.int (u * IZR (w - 1)) in
  let py := Py.int (v * IZR (h - 1)) in
  (py, px).

(** Lines 40-49. *)
Definition sample_equirect (ldr : ndarray pixel) (x y z : R) : result pixel :=
  let h := shape0 ldr in
  let w := shape1 ldr in
  vec <- normalize x y z ;;
  let '(py, px) := pixel_index w h (tex_coords vec) in
  Np.getitem ldr py px.

(** The face-local coordinate of the centre of pixel [k]. *)
Definition face_coord (face_size k : Z) : R :=
  (IZR k + 0.5) / IZR face_size * 2 - 1.

(** The body of the two nested loops of a face; [dir u v] stands for the
    arguments the face passes to [sample_equirect]. *)
Definition fill_pixel (ldr : ndarray pixel) (face_size : Z)
    (dir : R -> R -> R * R * R) (i j : Z) (face : ndarray pixel)
  : result (ndarray pixel) :=
  let u := face_coord face_size j in
  let v := face_coord face_size i in
  let '(x, y, z) := dir u v in
  p <- sample_equirect ldr x y z ;;
  Np.setitem face i j p.

(** The two nested loops that fill one face. *)
Definition fill_face (ldr : ndarray pixel) (face_size : Z)
    (dir : R -> R -> R * R * R) (face : ndarray pixel) : result (ndarray pixel) :=
  Py.for_each (Py.range face_size) (fun i face =>
    Py.for_each (Py.range face_size) (fun j face =>
      fill_pixel ldr face_size dir i j face) face) face.

(** One face: allocate, then fill. *)
Definition make_face (ldr : ndarray pixel) (face_size : Z)
    (dir : R -> R -> R * R * R) : M (ndarray pixel) :=
  face <~ lift (Np.zeros face_size) ;;
  _ <~ emit (AllocFace face_size) ;;
  lift (fill_face ldr face_size dir face).

(** The arguments of the six calls of [sample_equirect], lines 61, 70, 79,
    88, 97 and 106. *)
Definition dir_right (u v : R) : R * R * R := (1, - v, - u).
Definition dir_left (u v : R) : R * R * R := (-1, - v, u).
Definition dir_top (u v : R) : R * R * R := (u, 1, v).
Definition dir_bottom (u v : R) : R * R * R := (u, -1, - v).
Definition dir_front (u v : R) : R * R * R := (u, - v, 1).
Definition dir_back (u v : R) : R * R * R := (- u, - v, -1).

(** Lines 51-107: the six faces, in the order the source builds them. *)
Definition project (ldr : ndarray pixel) (face_size : Z)
  : M (list (string * ndarray pixel)) :=
  let faces := [] in
  _ <~ emit (PrintGenerating face_size) ;;
  face <~ make_face ldr face_size dir_right ;;
  let faces := dict_set faces "right" face in
  face <~ make_face ldr face_size dir_left ;;
  let faces := dict_set faces "left" face in
  face <~ make_face ldr face_size dir_top ;;
  let faces := dict_set faces "top" face in
  face <~ make_face ldr face_size dir_bottom ;;
  let faces := dict_set faces "bottom" face in
  face <~ make_face ldr face_size dir_front ;;
  let faces := dict_set faces "front" face in
  face <~ make_face ldr face_size dir_back ;;
  let faces := dict_set faces "back" face in
  ret faces.

(** Lines 110-117: every face goes through [cvtColor] and to the writer. *)
Definition save (faces : list (string * ndarray pixel)) : M unit :=
  _ <~ emit Makedirs ;;
  _ <~ for_items faces (fun name img =>
         img_rgb <~ lift (Cv2.cvtColor_BGR2RGB img) ;;
         _ <~ emit (SaveJpg name img_rgb) ;;
         emit (PrintSaved name)) ;;
  emit PrintDone.

(** Lines 8-117. *)
Definition exr_to_cubemap (exr : exr_file) (size : option Z) : M unit :=
  let width := exr_width exr in
  let height := exr_height exr in
  size <~ resolve_size width height size ;;
  let hdr := Np.stack3 height width (channel_R exr) (channel_G exr) (channel_B exr) in
  let ldr := tonemap hdr in
  let face_size := size in
  faces <~ project ldr face_size ;;
  save faces.

(* ================================================================== *)
(** ** The specification's vocabulary *)

(** The six faces of section 3 and the file names of section 6. *)
Inductive Face : Type := Right | Left | Top | Bottom | Front | Back.

Definition all_faces : list Face := [Right; Left; Top; Bottom; Front; Back].

Definition face_name (f : Face) : string :=
  match f with
  | Right => "right"
  | Left => "left"
  | Top => "top"
  | Bottom => "bottom"
  | Front => "front"
  | Back => "back"
  end.

(** The table of section 4.3: direction as a function of face-local u, v. *)
Definition face_direction_spec (f : Face) (u v : R) : R * R * R :=
  match f with
  | Right => (1, - v, - u)
  | Left => (-1, - v, u)
  | Top => (u, 1, v)
  | Bottom => (u, -1, - v)
  | Front => (u, - v, 1)
  | Back => (- u, - v, -1)
  end.

(** The canonical axis of a face (section 3: right is +X, ..., back is -Z). *)
Definition face_axis (f : Face) : R * R * R :=
  match f with
  | Right => (1, 0, 0)
  | Left => (-1, 0, 0)
  | Top => (0, 1, 0)
  | Bottom => (0, -1, 0)
  | Front => (0, 0, 1)
  | Back => (0, 0, -1)
  end.

(** The direction a face of the program passes to [sample_equirect]. *)
Definition face_dir (f : Face) : R -> R -> R * R * R :=
  match f with
  | Right => dir_right
  | Left => dir_left
  | Top => dir_top
  | Bottom => dir_bottom
  | Front => dir_front
  | Back => dir_back
  end.

(** Section 4.3, step 1, in the specification's own parenthesisation. *)
Definition face_coord_spec (face_size k : Z) : R :=
  ((IZR k + 0.5) / IZR face_size) * 2 - 1.

(** [floor] *)
Definition floor (x : R) : Z := Int_part x.

(** Section 4.3, steps 4 and 5, for a unit direction. *)
Definition texU_spec (x z : R) : R := 0.5 + Np.arctan2 x z / (2 * PI).
Definition texV_spec (y : R) : R := 0.5 - asin y / PI.
Definition px_spec (w : Z) (texU : R) : Z := floor (texU * (IZR w - 1)).
Definition py_spec (h : Z) (texV : R) : Z := floor (texV * (IZR h - 1)).

(** Section 4.1, steps 1 to 4, on one channel value. *)
Definition clamp01 (x : R) : R :=
  if Rlt_dec x 0 then 0 else if Rlt_dec 1 x then 1 else x.

Definition tonemap_channel_spec (x : R) : Z :=
  floor (Np.pow (clamp01 (1.5 * x)) (1 / 2.2) * 255).

(** Section 4.2 as written: an explicit size counts only when positive. *)
Definition resolve_spec (height : Z) (size : option Z) : Z :=
  match size with
  | Some s => if (0 <? s)%Z then s else (height / 2)%Z
  | None => (height / 2)%Z
  end.

(** The face size the program works with: the value [resolve_size] returns. *)
Definition resolve (height : Z) (size : option Z) : result Z :=
  snd (resolve_size 0 height size []).

(** Modelled from the spec: the inverse spherical mapping of section 8 is no
    part of the program.  By the glossary the horizontal texture coordinate
    is linear in the longitude over (-PI, PI) and the vertical one in the
    latitude from PI/2 down to -PI/2; the direction of a longitude and a
    latitude has its y along the poles and its longitude measured from +Z
    toward +X, as [tex_coords] measures it. *)
Definition inverse_spherical (uv : R * R) : R * R * R :=
  let '(texU, texV) := uv in
  let lon := (texU - 0.5) * (2 * PI) in
  let lat := (0.5 - texV) * PI in
  (cos lat * sin lon, sin lat, cos lat * cos lon).


(** The face buffers a run has allocated, in order. *)
Definition allocations (log : list event) : list Z :=
  flat_map (fun e => match e with AllocFace n => [n] | _ => [] end) log.

(** The images a run has handed to the writer, in order. *)
Definition saved (log : list event) : list (string * ndarray pixel) :=
  flat_map (fun e => match e with SaveJpg name img => [(name, img)] | _ => [] end) log.

(** Test inputs of section 8: a constant panorama of a given size. *)
Definition constant_exr (width height : Z) (c : hdr_pixel) : exr_file :=
  let '(r, g, b) := c in
  mk_exr_file 0 0 (width - 1) (height - 1) (fun _ _ => r) (fun _ _ => g) (fun _ _ => b).

Definition red_4x2 : exr_file := constant_exr 4 2 (1, 0, 0).

(** The value a face loop stores at [(i, j)]: what [sample_equirect] returns
    for the direction of that pixel. *)
Definition sample_at (ldr : ndarray pixel) (face_size : Z)
    (dir : R -> R -> R * R * R) (i j : Z) : result pixel :=
  let '(x, y, z) := dir (face_coord face_size j) (face_coord face_size i) in
  sample_equirect ldr x y z.

Definition value_of (r : result pixel) : pixel :=
  match r with
  | Ok p => p
  | Raise _ => (0, 0, 0)%Z
  end.

Definition sample_value (ldr : ndarray pixel) (face_size : Z)
    (dir : R -> R -> R * R * R) (i j : Z) : pixel :=
  value_of (sample_at ldr face_size dir i j).

Definition mem (k : Z) (l : list Z) : bool := existsb (Z.eqb k) l.


(** The tonemapped source image of a run. *)
Definition ldr_of (exr : exr_file) : ndarray pixel :=
  tonemap (Np.stack3 (exr_height exr) (exr_width exr)
             (channel_R exr) (channel_G exr) (channel_B exr)).

(** The face size of a run. *)
Definition face_size_of (exr : exr_file) (size : option Z) : Z :=
  match size with
  | None => Py.floordiv (exr_height exr) 2
  | Some s => s
  end.

(** What [print] shows while the face size is resolved. *)
Definition resolve_log (exr : exr_file) (size : option Z) : list event :=
  match size with
  | None => [PrintAutoDetected (Py.floordiv (exr_height exr) 2)
               (exr_width exr) (exr_height exr)]
  | Some _ => []
  end.

(** A pixel with its first and third channel exchanged. *)
Definition swap_channels {A : Type} (p : A * A * A) : A * A * A :=
  let '(c0, c1, c2) := p in (c2, c1, c0).

(** An image with the first and third channel of every pixel exchanged. *)
Definition swapped {A : Type} (img : ndarray (A * A * A)) : ndarray (A * A * A) :=
  mk_ndarray (shape0 img) (shape1 img) (fun i j => swap_channels (item img i j)).

(** What [save] appends to the log when every face passes [cvtColor]. *)
Definition save_log (faces : Face -> ndarray pixel) : list event :=
  Makedirs ::
  flat_map (fun f => [SaveJpg (face_name f) (swapped (faces f));
                      PrintSaved (face_name f)]) all_faces
  ++ [PrintDone].

(** The dict [project] returns when the six faces are [faces]. *)
Definition faces_dict (faces : Face -> ndarray pixel) : list (string * ndarray pixel) :=
  map (fun f => (face_name f, faces f)) all_faces.

(** All three channels of a pixel lie in [lo, hi]. *)
Definition channels_within (lo hi : Z) (p : pixel) : Prop :=
  let '(c0, c1, c2) := p in
  (lo <= c0 <= hi)%Z /\ (lo <= c1 <= hi)%Z /\ (lo <= c2 <= hi)%Z.

(** The three positions of the last axis of an image. *)
Inductive chan : Type := Ch0 | Ch1 | Ch2.

Definition channel {A : Type} (c : chan) (p : A * A * A) : A :=
  let '(c0, c1, c2) := p in
  match c with
  | Ch0 => c0
  | Ch1 => c1
  | Ch2 => c2
  end.

(** The file names of a complete run, in the order they are written. *)
Definition face_names : list string :=
  ["right"; "left"; "top"; "bottom"; "front"; "back"]%string.

(** The floating-point pixel of the panorama at row [py], column [px]. *)
Definition hdr_at (exr : exr_file) (py px : Z) : hdr_pixel :=
  (channel_R exr py px, channel_G exr py px, channel_B exr py px).

(** The source row the centre of a face is sampled in. *)
Definition axis_row (h : Z) (f : Face) : Z :=
  match f with
  | Top => 0%Z
  | Bottom => (h - 1)%Z
  | _ => floor (0.5 * IZR (h - 1))
  end.

(** The source column the centre of a face is sampled in.  At the back and
    the bottom centre the program passes a negative zero to [arctan2], whose
    sign decides between the two ends of the seam; the reals do not carry
    it and no column is stated there. *)
Definition axis_col (w : Z) (f : Face) : option Z :=
  match f with
  | Right => Some (floor (0.75 * IZR (w - 1)))
  | Left => Some (floor (0.25 * IZR (w - 1)))
  | Top | Front => Some (floor (0.5 * IZR (w - 1)))
  | Bottom | Back => None
  end.

(* ================================================================== *)
(** ** Python and numpy facts *)

Lemma in_range (n i : Z) : In i (Py.range n) <-> (0 <= i < n)%Z.
Proof.
  unfold Py.range. rewrite in_map_iff. split.
  - intros [k [<- Hk]]. apply in_seq in Hk. lia.
  - intros Hi. exists (Z.to_nat i). split; [lia | apply in_seq; lia].
Qed.

Lemma mem_true (k : Z) (l : list Z) : mem k l = true <-> In k l.
Proof.
  unfold mem. rewrite existsb_exists. split.
  - intros [x [Hx Heq]]. apply Z.eqb_eq in Heq. now subst.
  - intros Hk. exists k. split; [assumption | apply Z.eqb_refl].
Qed.

Lemma index_in_bounds (n i : Z) : (0 <= i < n)%Z -> Np.index n i = Ok i.
Proof.
  intros Hi. unfold Np.index.
  destruct (Z.ltb_spec i 0); [lia |].
  destruct (Z.leb_spec 0 i); [| lia].
  destruct (Z.ltb_spec i n); [reflexivity | lia].
Qed.

Lemma getitem_in_bounds {A : Type} (a : ndarray A) (i j : Z) :
  (0 <= i < shape0 a)%Z -> (0 <= j < shape1 a)%Z ->
  Np.getitem a i j = Ok (item a i j).
Proof.
  intros Hi Hj. unfold Np.getitem.
  rewrite (index_in_bounds _ _ Hi), (index_in_bounds _ _ Hj). reflexivity.
Qed.

Lemma setitem_in_bounds {A : Type} (a : ndarray A) (i j : Z) (v : A) :
  (0 <= i < shape0 a)%Z -> (0 <= j < shape1 a)%Z ->
  Np.setitem a i j v =
  Ok (mk_ndarray (shape0 a) (shape1 a)
        (fun r c => if ((r =? i) && (c =? j))%Z%bool then v else item a r c)).
Proof.
  intros Hi Hj. unfold Np.setitem.
  rewrite (index_in_bounds _ _ Hi), (index_in_bounds _ _ Hj). reflexivity.
Qed.

Lemma int_nonneg (x : R) : 0 <= x -> Py.int x = floor x.
Proof.
  intros Hx. unfold Py.int, floor. destruct (Rle_dec 0 x); [reflexivity | contradiction].
Qed.

Lemma floor_IZR (k : Z) : floor (IZR k) = k.
Proof.
  unfold floor. symmetry. apply Int_part_spec. lra.
Qed.

Lemma floor_bounds (x : R) (n : Z) : 0 <= x <= IZR n -> (0 <= floor x <= n)%Z.
Proof.
  intros [Hlo Hhi]. unfold floor.
  destruct (base_Int_part x) as [H1 H2].
  split.
  - apply Z.lt_succ_r. apply lt_IZR. rewrite succ_IZR. lra.
  - apply le_IZR. lra.
Qed.

(* ================================================================== *)
(** ** The face loops *)

Section FaceLoops.

Variable ldr : ndarray pixel.
Variable n : Z.
Variable dir : R -> R -> R * R * R.

Hypothesis samples_ok :
  forall i j, (0 <= i < n)%Z -> (0 <= j < n)%Z ->
              exists p, sample_at ldr n dir i j = Ok p.

Lemma inner_step (i j : Z) (a : ndarray pixel) :
  (0 <= i < n)%Z -> (0 <= j < n)%Z -> shape0 a = n -> shape1 a = n ->
  fill_pixel ldr n dir i j a =
  Ok (mk_ndarray n n
        (fun r c => if ((r =? i) && (c =? j))%Z%bool then sample_value ldr n dir i j else item a r c)).
Proof.
  intros Hi Hj H0 H1.
  destruct (samples_ok i j Hi Hj) as [p Hp].
  unfold fill_pixel, sample_value. unfold sample_at in *.
  destruct (dir (face_coord n j) (face_coord n i)) as [[x y] z].
  rewrite Hp. cbn [Py.bind value_of].
  rewrite setitem_in_bounds by lia. now rewrite H0, H1.
Qed.

Lemma row_loop (i : Z) (js : list Z) : forall a : ndarray pixel,
  (0 <= i < n)%Z -> (forall j, In j js -> (0 <= j < n)%Z) ->
  shape0 a = n -> shape1 a = n ->
  exists a',
    Py.for_each js (fill_pixel ldr n dir i) a = Ok a' /\ shape0 a' = n /\ shape1 a' = n /\
    forall r c, item a' r c =
                if ((r =? i)%Z && mem c js)%bool then sample_value ldr n dir r c else item a r c.
Proof.
  induction js as [| j js IH]; intros a Hi Hjs H0 H1.
  - exists a. cbn. repeat split; try assumption.
    intros r c. now rewrite andb_false_r.
  - cbn [Py.for_each].
    rewrite inner_step by (auto using in_eq).
    destruct (IH (mk_ndarray n n
                  (fun r c => if ((r =? i) && (c =? j))%Z%bool then sample_value ldr n dir i j
                              else item a r c))) as [a' [Hrun [S0 [S1 Hitem]]]];
      try reflexivity; try assumption.
    { intros k Hk. apply Hjs. now right. }
    exists a'. repeat split; try assumption.
    intros r c. rewrite Hitem. cbn [item mem existsb].
    destruct (Z.eqb_spec r i) as [-> | Hr]; cbn [andb]; [| reflexivity].
    fold (mem c js).
    destruct (mem c js); [now rewrite orb_true_r |].
    rewrite orb_false_r.
    destruct (Z.eqb_spec c j) as [-> | Hc]; reflexivity.
Qed.

Lemma rows_loop (rows : list Z) : forall a : ndarray pixel,
  (forall i, In i rows -> (0 <= i < n)%Z) ->
  shape0 a = n -> shape1 a = n ->
  exists a',
    Py.for_each rows (fun i face => Py.for_each (Py.range n) (fill_pixel ldr n dir i) face) a = Ok a' /\
    shape0 a' = n /\ shape1 a' = n /\
    forall r c, item a' r c =
                if (mem r rows && mem c (Py.range n))%bool then sample_value ldr n dir r c
                else item a r c.
Proof.
  induction rows as [| i rows IH]; intros a Hrows H0 H1.
  - exists a. cbn. repeat split; assumption.
  - cbn [Py.for_each].
    destruct (row_loop i (Py.range n) a) as [a1 [Hrun1 [S0 [S1 Hitem1]]]];
      try assumption.
    { apply Hrows. now left. }
    { intros j Hj. now apply in_range. }
    rewrite Hrun1.
    destruct (IH a1) as [a' [Hrun [T0 [T1 Hitem]]]]; try assumption.
    { intros k Hk. apply Hrows. now right. }
    exists a'. repeat split; try assumption.
    intros r c. rewrite Hitem, Hitem1. cbn [mem existsb]. fold (mem r rows).
    destruct (mem r rows), (mem c (Py.range n)), (r =? i)%Z; reflexivity.
Qed.

Lemma fill_face_ok (a : ndarray pixel) :
  shape0 a = n -> shape1 a = n ->
  exists a',
    fill_face ldr n dir a = Ok a' /\ shape0 a' = n /\ shape1 a' = n /\
    forall i j, (0 <= i < n)%Z -> (0 <= j < n)%Z ->
                Np.getitem a' i j = sample_at ldr n dir i j.
Proof.
  intros H0 H1.
  destruct (rows_loop (Py.range n) a) as [a' [Hrun [S0 [S1 Hitem]]]];
    try assumption.
  { intros i Hi. now apply in_range. }
  exists a'. repeat split; try assumption.
  intros i j Hi Hj.
  rewrite getitem_in_bounds by lia. rewrite Hitem.
  assert (Hmi : mem i (Py.range n) = true) by (apply mem_true, in_range; lia).
  assert (Hmj : mem j (Py.range n) = true) by (apply mem_true, in_range; lia).
  rewrite Hmi, Hmj. cbn [andb]. unfold sample_value.
  destruct (samples_ok i j Hi Hj) as [p ->]. reflexivity.
Qed.

Lemma make_face_ok (log : list event) :
  (0 <= n)%Z ->
  exists face,
    make_face ldr n dir log = (log ++ [AllocFace n], Ok face) /\
    shape0 face = n /\ shape1 face = n /\
    forall i j, (0 <= i < n)%Z -> (0 <= j < n)%Z ->
                Np.getitem face i j = sample_at ldr n dir i j.
Proof.
  intros Hn.
  destruct (fill_face_ok (mk_ndarray n n (fun _ _ => (0, 0, 0)%Z)))
    as [face [Hrun Hface]]; try reflexivity.
  exists face. split; [| exact Hface].
  unfold make_face, bindM, lift, emit, Np.zeros.
  destruct (Z.ltb_spec n 0); [lia |]. now rewrite Hrun.
Qed.

End FaceLoops.

(* ================================================================== *)
(** ** Directions, angles and texture coordinates *)

Lemma sum_squares_pos (x y z : R) :
  (x, y, z) <> (0, 0, 0) -> 0 < x * x + y * y + z * z.
Proof.
  intros Hne.
  destruct (Req_dec x 0) as [-> | Hx]; [| nra].
  destruct (Req_dec y 0) as [-> | Hy]; [| nra].
  destruct (Req_dec z 0) as [-> | Hz]; [| nra].
  now contradiction Hne.
Qed.

Lemma linalg_norm_pos (x y z : R) :
  (x, y, z) <> (0, 0, 0) -> 0 < Np.linalg_norm (x, y, z).
Proof.
  intros Hne. unfold Np.linalg_norm. apply sqrt_lt_R0. now apply sum_squares_pos.
Qed.

Lemma linalg_norm_sqr (x y z : R) :
  Np.linalg_norm (x, y, z) * Np.linalg_norm (x, y, z) = x * x + y * y + z * z.
Proof.
  unfold Np.linalg_norm. apply sqrt_sqrt. nra.
Qed.

Lemma normalize_ok (x y z : R) :
  (x, y, z) <> (0, 0, 0) ->
  normalize x y z =
  Ok (x / Np.linalg_norm (x, y, z), y / Np.linalg_norm (x, y, z),
      z / Np.linalg_norm (x, y, z)).
Proof.
  intros Hne. pose proof (linalg_norm_pos x y z Hne) as Hpos.
  unfold normalize, Np.vec_div.
  destruct (Req_dec_T (Np.linalg_norm (x, y, z)) 0) as [H0 | _]; [lra | reflexivity].
Qed.

Lemma normalize_zero : normalize 0 0 0 = Raise ValueError.
Proof.
  unfold normalize, Np.vec_div, Np.linalg_norm.
  replace (0 * 0 + 0 * 0 + 0 * 0) with 0 by ring. rewrite sqrt_0.
  destruct (Req_dec_T 0 0) as [_ | H]; [reflexivity | now contradiction H].
Qed.

Lemma normalize_unit (x y z a b c : R) :
  normalize x y z = Ok (a, b, c) -> a * a + b * b + c * c = 1.
Proof.
  pose proof (linalg_norm_sqr x y z) as Hsq.
  unfold normalize, Np.vec_div, Np.map3.
  remember (Np.linalg_norm (x, y, z)) as n eqn:En. clear En.
  destruct (Req_dec_T n 0) as [H0 | Hn]; [discriminate |].
  intros H. injection H as <- <- <-.
  replace (x / n * (x / n) + y / n * (y / n) + z / n * (z / n))
    with ((x * x + y * y + z * z) / (n * n)) by (field; exact Hn).
  rewrite <- Hsq. unfold Rdiv. apply Rinv_r. nra.
Qed.

Lemma unit_component_bound (a b c : R) :
  a * a + b * b + c * c = 1 -> -1 <= b <= 1.
Proof. intros H. split; nra. Qed.

Lemma atan_nonpos (t : R) : t <= 0 -> atan t <= 0.
Proof.
  intros [Hlt | ->].
  - left. rewrite <- atan_0. now apply atan_increasing.
  - right. exact atan_0.
Qed.

Lemma atan_pos (t : R) : 0 < t -> 0 < atan t.
Proof.
  intros Ht. rewrite <- atan_0. now apply atan_increasing.
Qed.

Lemma arctan2_bound (x1 x2 : R) : - PI < Np.arctan2 x1 x2 <= PI.
Proof.
  pose proof PI_RGT_0 as Hpi. unfold Np.arctan2.
  destruct (Rlt_dec 0 x2) as [Hp | Hnp].
  - pose proof (atan_bound (x1 / x2)). lra.
  - destruct (Rlt_dec x2 0) as [Hn | Hnn].
    + pose proof (atan_bound (x1 / x2)) as Hb.
      destruct (Rle_dec 0 x1) as [H1 | H1].
      * assert (x1 / x2 <= 0).
        { unfold Rdiv. pose proof (Rinv_lt_0_compat x2 Hn). nra. }
        pose proof (atan_nonpos _ H). lra.
      * assert (0 < x1 / x2).
        { unfold Rdiv. pose proof (Rinv_lt_0_compat x2 Hn). nra. }
        pose proof (atan_pos _ H). lra.
    + destruct (Rlt_dec 0 x1); [lra |]. destruct (Rlt_dec x1 0); lra.
Qed.

Lemma tex_coords_bounds (a b c : R) :
  let '(u, v) := tex_coords (a, b, c) in 0 <= u <= 1 /\ 0 <= v <= 1.
Proof.
  pose proof PI_RGT_0 as Hpi.
  unfold tex_coords, Np.arcsin.
  pose proof (arctan2_bound a c) as [Ha1 Ha2].
  pose proof (asin_bound b) as [Hs1 Hs2].
  assert (Hu : -0.5 <= Np.arctan2 a c / (2 * PI) <= 0.5).
  { split.
    - apply Rmult_le_reg_r with (2 * PI); [lra |].
      unfold Rdiv. rewrite Rmult_assoc, Rinv_l by lra. lra.
    - apply Rmult_le_reg_r with (2 * PI); [lra |].
      unfold Rdiv. rewrite Rmult_assoc, Rinv_l by lra. lra. }
  assert (Hv : -0.5 <= asin b / PI <= 0.5).
  { split.
    - apply Rmult_le_reg_r with PI; [lra |].
      unfold Rdiv. rewrite Rmult_assoc, Rinv_l by lra. lra.
    - apply Rmult_le_reg_r with PI; [lra |].
      unfold Rdiv. rewrite Rmult_assoc, Rinv_l by lra. lra. }
  split; lra.
Qed.

Lemma int_scaled_bounds (t : R) (n : Z) :
  0 <= t <= 1 -> (1 <= n)%Z ->
  Py.int (t * IZR (n - 1)) = floor (t * IZR (n - 1)) /\
  (0 <= Py.int (t * IZR (n - 1)) <= n - 1)%Z.
Proof.
  intros [Ht0 Ht1] Hn.
  assert (Hk : 0 <= IZR (n - 1)) by (apply IZR_le; lia).
  assert (Hx : 0 <= t * IZR (n - 1) <= IZR (n - 1)) by (split; nra).
  rewrite int_nonneg by lra. split; [reflexivity |].
  now apply floor_bounds.
Qed.

Lemma pixel_index_bounds (w h : Z) (a b c : R) :
  (1 <= w)%Z -> (1 <= h)%Z ->
  let '(py, px) := pixel_index w h (tex_coords (a, b, c)) in
  (0 <= py <= h - 1)%Z /\ (0 <= px <= w - 1)%Z.
Proof.
  intros Hw Hh.
  pose proof (tex_coords_bounds a b c) as Hb.
  destruct (tex_coords (a, b, c)) as [u v]. destruct Hb as [Hu Hv].
  unfold pixel_index.
  split; [apply (int_scaled_bounds v h) | apply (int_scaled_bounds u w)]; assumption.
Qed.

(** On a source image with at least one pixel, sampling a non-zero direction
    returns the pixel at the index computed from the normalised direction,
    and that index is inside the image. *)
Lemma sample_equirect_ok (ldr : ndarray pixel) (x y z : R) :
  (x, y, z) <> (0, 0, 0) -> (1 <= shape1 ldr)%Z -> (1 <= shape0 ldr)%Z ->
  exists vec py px,
    normalize x y z = Ok vec /\
    pixel_index (shape1 ldr) (shape0 ldr) (tex_coords vec) = (py, px) /\
    (0 <= py <= shape0 ldr - 1)%Z /\ (0 <= px <= shape1 ldr - 1)%Z /\
    sample_equirect ldr x y z = Ok (item ldr py px).
Proof.
  intros Hne Hw Hh.
  pose proof (normalize_ok x y z Hne) as Hnorm.
  set (n := Np.linalg_norm (x, y, z)) in *.
  pose proof (pixel_index_bounds (shape1 ldr) (shape0 ldr) (x / n) (y / n) (z / n) Hw Hh)
    as Hb.
  destruct (pixel_index (shape1 ldr) (shape0 ldr) (tex_coords (x / n, y / n, z / n)))
    as [py px] eqn:Hidx.
  destruct Hb as [Hpy Hpx].
  exists (x / n, y / n, z / n), py, px.
  repeat split; try assumption; try lia.
  unfold sample_equirect. rewrite Hnorm. cbn [Py.bind]. rewrite Hidx.
  apply getitem_in_bounds; lia.
Qed.

(* ================================================================== *)
(** ** The six faces *)

Lemma face_dir_table (f : Face) (u v : R) : face_dir f u v = face_direction_spec f u v.
Proof. destruct f; reflexivity. Qed.

Lemma face_coord_as_spec (n k : Z) : face_coord n k = face_coord_spec n k.
Proof. reflexivity. Qed.

Lemma face_dir_nonzero (f : Face) (u v : R) : face_dir f u v <> (0, 0, 0).
Proof.
  destruct f; cbn; intros H; injection H; intros; lra.
Qed.

Lemma sample_at_ok (ldr : ndarray pixel) (n : Z) (f : Face) (i j : Z) :
  (1 <= shape1 ldr)%Z -> (1 <= shape0 ldr)%Z ->
  exists p, sample_at ldr n (face_dir f) i j = Ok p.
Proof.
  intros Hw Hh. unfold sample_at.
  pose proof (face_dir_nonzero f (face_coord n j) (face_coord n i)) as Hne.
  destruct (face_dir f (face_coord n j) (face_coord n i)) as [[x y] z].
  destruct (sample_equirect_ok ldr x y z Hne Hw Hh) as [vec [py [px [_ [_ [_ [_ Hs]]]]]]].
  eauto.
Qed.

Lemma dict_get_faces (faces : Face -> ndarray pixel) (f : Face) :
  dict_get (faces_dict faces) (face_name f) = Some (faces f).
Proof. destruct f; reflexivity. Qed.

(** The projector on a face size [n >= 0] whose every sample succeeds. *)
Lemma project_ok (ldr : ndarray pixel) (n : Z) (log : list event) :
  (0 <= n)%Z ->
  (forall f i j, (0 <= i < n)%Z -> (0 <= j < n)%Z ->
                 exists p, sample_at ldr n (face_dir f) i j = Ok p) ->
  exists faces : Face -> ndarray pixel,
    project ldr n log =
      (log ++ PrintGenerating n :: repeat (AllocFace n) 6, Ok (faces_dict faces)) /\
    forall f,
      shape0 (faces f) = n /\ shape1 (faces f) = n /\
      forall i j, (0 <= i < n)%Z -> (0 <= j < n)%Z ->
                  Np.getitem (faces f) i j = sample_at ldr n (face_dir f) i j.
Proof.
  intros Hn Hs.
  set (log0 := log ++ [PrintGenerating n]).
  destruct (make_face_ok ldr n dir_right (Hs Right) log0 Hn) as [fr [Rr Pr]].
  destruct (make_face_ok ldr n dir_left (Hs Left) (log0 ++ [AllocFace n]) Hn)
    as [fl [Rl Pl]].
  destruct (make_face_ok ldr n dir_top (Hs Top) ((log0 ++ [AllocFace n]) ++ [AllocFace n]) Hn)
    as [ft [Rt Pt]].
  destruct (make_face_ok ldr n dir_bottom (Hs Bottom)
              (((log0 ++ [AllocFace n]) ++ [AllocFace n]) ++ [AllocFace n]) Hn)
    as [fb [Rb Pb]].
  destruct (make_face_ok ldr n dir_front (Hs Front)
              ((((log0 ++ [AllocFace n]) ++ [AllocFace n]) ++ [AllocFace n])
                 ++ [AllocFace n]) Hn)
    as [ff [Rf Pf]].
  destruct (make_face_ok ldr n dir_back (Hs Back)
              (((((log0 ++ [AllocFace n]) ++ [AllocFace n]) ++ [AllocFace n])
                  ++ [AllocFace n]) ++ [AllocFace n]) Hn)
    as [fk [Rk Pk]].
  exists (fun f => match f with
                   | Right => fr | Left => fl | Top => ft
                   | Bottom => fb | Front => ff | Back => fk
                   end).
  split.
  - unfold project. unfold bindM at 1. cbn [emit]. fold log0.
    unfold bindM at 1. rewrite Rr.
    unfold bindM at 1. rewrite Rl.
    unfold bindM at 1. rewrite Rt.
    unfold bindM at 1. rewrite Rb.
    unfold bindM at 1. rewrite Rf.
    unfold bindM at 1. rewrite Rk.
    unfold ret, log0, faces_dict. cbn [dict_set String.eqb Ascii.eqb Bool.eqb map all_faces face_name].
    f_equal. repeat rewrite <- app_assoc. reflexivity.
  - intros []; assumption.
Qed.

(* ================================================================== *)
(** ** The tonemapper, channel by channel *)

Lemma pow_range (x y : R) : 0 <= x <= 1 -> 0 < y -> 0 <= Np.pow x y <= 1.
Proof.
  intros [Hx0 Hx1] Hy. unfold Np.pow.
  destruct (Rlt_dec 0 x) as [Hpos | _]; [| lra].
  unfold Rpower. split; [left; apply exp_pos |].
  rewrite <- exp_0.
  destruct Hx1 as [Hlt | ->].
  - left. apply exp_increasing.
    pose proof (ln_increasing x 1 Hpos Hlt) as Hln. rewrite ln_1 in Hln. nra.
  - rewrite ln_1, Rmult_0_r. right. reflexivity.
Qed.

Lemma pow_one (y : R) : Np.pow 1 y = 1.
Proof.
  unfold Np.pow. destruct (Rlt_dec 0 1) as [_ | H]; [| lra].
  unfold Rpower. now rewrite ln_1, Rmult_0_r, exp_0.
Qed.

Lemma pow_zero (y : R) : Np.pow 0 y = 0.
Proof.
  unfold Np.pow. destruct (Rlt_dec 0 0) as [H | _]; [lra | reflexivity].
Qed.

Lemma clip_is_clamp01 (x : R) : Rmin 1 (Rmax (x * 1.5) 0) = clamp01 (1.5 * x).
Proof.
  unfold clamp01, Rmin, Rmax.
  destruct (Rle_dec (x * 1.5) 0), (Rlt_dec (1.5 * x) 0);
    try destruct (Rlt_dec 1 (1.5 * x)); destruct (Rle_dec 1 _); lra.
Qed.

Lemma clamp01_range (x : R) : 0 <= clamp01 x <= 1.
Proof.
  unfold clamp01. destruct (Rlt_dec x 0); [lra |]. destruct (Rlt_dec 1 x); lra.
Qed.

Lemma uint8_in_range (v : R) :
  0 <= v <= 255 -> Np.uint8 v = floor v /\ (0 <= floor v <= 255)%Z.
Proof.
  intros Hv. pose proof (floor_bounds v 255 Hv) as Hb.
  unfold Np.uint8. rewrite int_nonneg by lra.
  split; [apply Z.mod_small; lia | exact Hb].
Qed.

Lemma scaled_range (x : R) :
  0 <= Np.pow (clamp01 (1.5 * x)) (1 / 2.2) * 255 <= 255.
Proof.
  pose proof (pow_range (clamp01 (1.5 * x)) (1 / 2.2) (clamp01_range _)) as H.
  assert (0 < 1 / 2.2) by lra. specialize (H H0). lra.
Qed.

Lemma tonemap_channel (x : R) :
  Np.uint8 (Np.pow (Rmin 1 (Rmax (x * 1.5) 0)) (1 / 2.2) * 255) =
  tonemap_channel_spec x.
Proof.
  rewrite clip_is_clamp01. unfold tonemap_channel_spec.
  apply uint8_in_range, scaled_range.
Qed.

Lemma tonemap_pixel (p : R * R * R) :
  Np.map3 Np.uint8
    (Np.map3 (fun x => x * 255)
       (Np.map3 (fun x => Np.pow x (1 / 2.2))
          (Np.map3 (fun x => Rmin 1 (Rmax x 0)) (Np.map3 (fun x => x * 1.5) p)))) =
  Np.map3 tonemap_channel_spec p.
Proof.
  destruct p as [[r g] b]. cbn [Np.map3]. now rewrite !tonemap_channel.
Qed.

Lemma tonemap_item (hdr : ndarray hdr_pixel) (i j : Z) :
  item (tonemap hdr) i j = Np.map3 tonemap_channel_spec (item hdr i j).
Proof.
  unfold tonemap, Np.astype_uint8, Np.mul_scalar, Np.power, Np.clip, Np.elementwise.
  cbn [item]. apply tonemap_pixel.
Qed.

Lemma tonemap_channel_spec_range (x : R) : (0 <= tonemap_channel_spec x <= 255)%Z.
Proof.
  unfold tonemap_channel_spec. apply floor_bounds, scaled_range.
Qed.

Lemma tonemap_channel_spec_one : tonemap_channel_spec 1 = 255%Z.
Proof.
  unfold tonemap_channel_spec, clamp01.
  destruct (Rlt_dec (1.5 * 1) 0); [lra |].
  destruct (Rlt_dec 1 (1.5 * 1)); [| lra].
  rewrite pow_one, Rmult_1_l. apply floor_IZR.
Qed.

Lemma tonemap_channel_spec_zero : tonemap_channel_spec 0 = 0%Z.
Proof.
  unfold tonemap_channel_spec, clamp01.
  destruct (Rlt_dec (1.5 * 0) 0); [lra |].
  destruct (Rlt_dec 1 (1.5 * 0)); [lra |].
  rewrite Rmult_0_r, pow_zero, Rmult_0_l. apply floor_IZR.
Qed.

(* ================================================================== *)
(** ** Sine and cosine of [arctan2] *)

Lemma hypot_scaled (t z : R) :
  sqrt (t * z * (t * z) + z * z) = Rabs z * sqrt (1 + t²).
Proof.
  replace (t * z * (t * z) + z * z) with (z² * (1 + t²)) by (unfold Rsqr; ring).
  rewrite sqrt_mult_alt by apply Rle_0_sqr.
  now rewrite sqrt_Rsqr_abs.
Qed.

Lemma sqrt_one_plus_sqr_pos (t : R) : 0 < sqrt (1 + t²).
Proof.
  apply sqrt_lt_R0. pose proof (Rle_0_sqr t). lra.
Qed.

Lemma arctan2_polar (x z : R) :
  sqrt (x * x + z * z) * sin (Np.arctan2 x z) = x /\
  sqrt (x * x + z * z) * cos (Np.arctan2 x z) = z.
Proof.
  unfold Np.arctan2.
  destruct (Rlt_dec 0 z) as [Hp | Hnp]; [| destruct (Rlt_dec z 0) as [Hn | Hnn]].
  - (* z > 0 *)
    pose proof (sqrt_one_plus_sqr_pos (x / z)) as Hs.
    replace (x * x) with (x / z * z * (x / z * z)) at 1 2 by (field; lra).
    rewrite hypot_scaled, Rabs_right by lra.
    rewrite sin_atan, cos_atan. split; field; lra.
  - (* z < 0 *)
    pose proof (sqrt_one_plus_sqr_pos (x / z)) as Hs.
    replace (x * x) with (x / z * z * (x / z * z)) at 1 2 by (field; lra).
    rewrite hypot_scaled, Rabs_left by lra.
    destruct (Rle_dec 0 x).
    + rewrite neg_sin, neg_cos, sin_atan, cos_atan. split; field; lra.
    + unfold Rminus. rewrite sin_plus, cos_plus, sin_neg, cos_neg, sin_PI, cos_PI.
      rewrite sin_atan, cos_atan. split; field; lra.
  - (* z = 0 *)
    assert (z = 0) by lra. subst z.
    replace (x * x + 0 * 0) with (x²) by (unfold Rsqr; ring).
    rewrite sqrt_Rsqr_abs.
    destruct (Rlt_dec 0 x) as [Hx | Hx]; [| destruct (Rlt_dec x 0) as [Hx' | Hx']].
    + rewrite Rabs_right, sin_PI2, cos_PI2 by lra. split; ring.
    + rewrite Rabs_left, sin_neg, cos_neg, sin_PI2, cos_PI2 by lra. split; ring.
    + assert (x = 0) by lra. subst x. rewrite Rabs_R0. split; ring.
Qed.

Lemma tex_coords_angles (x y z : R) :
  let '(u, v) := tex_coords (x, y, z) in
  (u - 0.5) * (2 * PI) = Np.arctan2 x z /\ (0.5 - v) * PI = asin y.
Proof.
  pose proof PI_RGT_0. unfold tex_coords, Np.arcsin. split; field; lra.
Qed.

(* ================================================================== *)
(** ** The whole run *)

Lemma resolve_size_run (width height : Z) (size : option Z) (exr : exr_file)
    (log : list event) :
  width = exr_width exr -> height = exr_height exr ->
  resolve_size width height size log =
  (log ++ resolve_log exr size, Ok (face_size_of exr size)).
Proof.
  intros -> ->. destruct size as [s |]; cbn.
  - unfold ret. now rewrite app_nil_r.
  - reflexivity.
Qed.

Lemma cvtColor_ok {A : Type} (img : ndarray (A * A * A)) :
  (0 < shape0 img)%Z -> (0 < shape1 img)%Z ->
  Cv2.cvtColor_BGR2RGB img = Ok (swapped img).
Proof.
  intros H0 H1. unfold Cv2.cvtColor_BGR2RGB.
  destruct (Z.leb_spec (shape0 img) 0); [lia |].
  destruct (Z.leb_spec (shape1 img) 0); [lia |]. reflexivity.
Qed.


Lemma save_ok (faces : Face -> ndarray pixel) (log : list event) :
  (forall f, (0 < shape0 (faces f))%Z /\ (0 < shape1 (faces f))%Z) ->
  save (faces_dict faces) log = (log ++ save_log faces, Ok tt).
Proof.
  intros Hs.
  unfold save, faces_dict, save_log, all_faces.
  cbn [map for_items flat_map app].
  unfold bindM, emit, lift, ret.
  rewrite !cvtColor_ok by apply Hs.
  repeat rewrite <- app_assoc. reflexivity.
Qed.


Lemma exr_to_cubemap_unfold (exr : exr_file) (size : option Z) (log : list event) :
  exr_to_cubemap exr size log =
  match project (ldr_of exr) (face_size_of exr size) (log ++ resolve_log exr size) with
  | (log', Ok faces) => save faces log'
  | (log', Raise e) => (log', Raise e)
  end.
Proof.
  unfold exr_to_cubemap. unfold bindM at 1.
  rewrite (resolve_size_run _ _ size exr log eq_refl eq_refl).
  reflexivity.
Qed.



Lemma allocations_app (l1 l2 : list event) :
  allocations (l1 ++ l2) = allocations l1 ++ allocations l2.
Proof. apply flat_map_app. Qed.

Lemma saved_app (l1 l2 : list event) : saved (l1 ++ l2) = saved l1 ++ saved l2.
Proof. apply flat_map_app. Qed.

Lemma allocations_resolve_log (exr : exr_file) (size : option Z) :
  allocations (resolve_log exr size) = [].
Proof. destruct size; reflexivity. Qed.

Lemma saved_resolve_log (exr : exr_file) (size : option Z) :
  saved (resolve_log exr size) = [].
Proof. destruct size; reflexivity. Qed.

(** A run on a source image with at least one pixel and a positive face
    size: its log, and what each face holds. *)
Lemma exr_to_cubemap_ok (exr : exr_file) (size : option Z) :
  (1 <= exr_width exr)%Z -> (1 <= exr_height exr)%Z ->
  (0 < face_size_of exr size)%Z ->
  exists faces : Face -> ndarray pixel,
    exr_to_cubemap exr size [] =
      (resolve_log exr size
         ++ (PrintGenerating (face_size_of exr size)
               :: repeat (AllocFace (face_size_of exr size)) 6)
         ++ save_log faces, Ok tt) /\
    forall f,
      shape0 (faces f) = face_size_of exr size /\
      shape1 (faces f) = face_size_of exr size /\
      forall i j, (0 <= i < face_size_of exr size)%Z ->
                  (0 <= j < face_size_of exr size)%Z ->
                  Np.getitem (faces f) i j =
                  sample_at (ldr_of exr) (face_size_of exr size) (face_dir f) i j.
Proof.
  intros Hw Hh Hn.
  destruct (project_ok (ldr_of exr) (face_size_of exr size) ([] ++ resolve_log exr size))
    as [faces [Hrun Hfaces]]; [lia | |].
  { intros f i j _ _. apply sample_at_ok; assumption. }
  exists faces. split; [| exact Hfaces].
  rewrite exr_to_cubemap_unfold, Hrun, save_ok.
  - cbn [app]. now rewrite <- app_assoc.
  - intros f. destruct (Hfaces f) as [-> [-> _]]. lia.
Qed.

(* ================================================================== *)
(** ** The properties of the specification *)

(** C1.  For every face and every output pixel (i, j) with i, j in
    [0, face_size), the projector computes u = ((j + 0.5) / face_size) * 2 - 1
    and v = ((i + 0.5) / face_size) * 2 - 1 and stores at (i, j) of that face
    what sampling the source along the direction of the face's row of the
    table returns.  The source image has at least one pixel. *)
Theorem project_follows_face_table (ldr : ndarray pixel) (face_size : Z)
    (log : list event) (f : Face) (i j : Z) :
  (1 <= shape1 ldr)%Z -> (1 <= shape0 ldr)%Z ->
  (0 <= i < face_size)%Z -> (0 <= j < face_size)%Z ->
  exists faces face p,
    snd (project ldr face_size log) = Ok faces /\
    dict_get faces (face_name f) = Some face /\
    (let u := face_coord_spec face_size j in
     let v := face_coord_spec face_size i in
     let '(x, y, z) := face_direction_spec f u v in
     sample_equirect ldr x y z = Ok p) /\
    Np.getitem face i j = Ok p.
Proof.
  intros Hw Hh Hi Hj.
  destruct (project_ok ldr face_size log) as [faces [Hrun Hfaces]]; [lia | |].
  { intros f' i' j' _ _. now apply sample_at_ok. }
  destruct (sample_at_ok ldr face_size f i j Hw Hh) as [p Hp].
  destruct (Hfaces f) as [_ [_ Hget]].
  exists (faces_dict faces), (faces f), p.
  rewrite Hrun, dict_get_faces, (Hget i j Hi Hj), Hp.
  repeat split.
  unfold sample_at in Hp. destruct f; exact Hp.
Qed.

Lemma project_follows_face_table_witness :
  exists faces face p,
    snd (project (ldr_of red_4x2) 1 []) = Ok faces /\
    dict_get faces "right" = Some face /\
    (let u := face_coord_spec 1 0 in
     let v := face_coord_spec 1 0 in
     let '(x, y, z) := face_direction_spec Right u v in
     sample_equirect (ldr_of red_4x2) x y z = Ok p) /\
    Np.getitem face 0 0 = Ok p.
Proof.
  apply (project_follows_face_table (ldr_of red_4x2) 1 [] Right 0 0); cbn; lia.
Defined.

(** C2.  Sampling a direction (x, y, z) scales it to unit length, that is,
    divides each component by n = sqrt(x*x + y*y + z*z); takes
    texU = 0.5 + atan2(x, z) / (2 pi) and texV = 0.5 - asin(y) / pi of the
    scaled direction, then px = floor(texU * (w - 1)) and
    py = floor(texV * (h - 1)), and returns the one source pixel at
    (py, px).  The direction is not the zero vector and the source image has
    at least one pixel. *)
Theorem sample_equirect_nearest (ldr : ndarray pixel) (x y z : R) :
  (x, y, z) <> (0, 0, 0) -> (1 <= shape1 ldr)%Z -> (1 <= shape0 ldr)%Z ->
  let n := sqrt (x * x + y * y + z * z) in
  let a := x / n in
  let b := y / n in
  let c := z / n in
  normalize x y z = Ok (a, b, c) /\
  a * a + b * b + c * c = 1 /\
  tex_coords (a, b, c) = (texU_spec a c, texV_spec b) /\
  let px := px_spec (shape1 ldr) (texU_spec a c) in
  let py := py_spec (shape0 ldr) (texV_spec b) in
  (0 <= px <= shape1 ldr - 1)%Z /\ (0 <= py <= shape0 ldr - 1)%Z /\
  sample_equirect ldr x y z = Ok (item ldr py px).
Proof.
  intros Hne Hw Hh. cbv zeta.
  pose proof (normalize_ok x y z Hne) as Hnorm.
  change (Np.linalg_norm (x, y, z)) with (sqrt (x * x + y * y + z * z)) in Hnorm.
  destruct (sample_equirect_ok ldr x y z Hne Hw Hh)
    as [vec [py [px [Hnorm' [Hidx [Hpy [Hpx Hs]]]]]]].
  rewrite Hnorm in Hnorm'. injection Hnorm' as <-.
  remember (sqrt (x * x + y * y + z * z)) as n eqn:En.
  pose proof (tex_coords_bounds (x / n) (y / n) (z / n)) as Hb.
  assert (Htex : tex_coords (x / n, y / n, z / n) =
                 (texU_spec (x / n) (z / n), texV_spec (y / n))) by reflexivity.
  rewrite Htex in Hb, Hidx. destruct Hb as [Hu Hv].
  unfold pixel_index in Hidx.
  destruct (int_scaled_bounds _ _ Hu Hw) as [Hfu _].
  destruct (int_scaled_bounds _ _ Hv Hh) as [Hfv _].
  rewrite Hfu, Hfv, !minus_IZR in Hidx.
  injection Hidx as Epy Epx.
  unfold px_spec, py_spec. rewrite Epy, Epx.
  split; [exact Hnorm |].
  split; [exact (normalize_unit _ _ _ _ _ _ Hnorm) |].
  split; [reflexivity |].
  split; [exact Hpx |]. split; [exact Hpy | exact Hs].
Qed.

Lemma sample_equirect_nearest_witness :
  let n := sqrt (3 * 3 + 0 * 0 + 4 * 4) in
  let a := 3 / n in
  let b := 0 / n in
  let c := 4 / n in
  normalize 3 0 4 = Ok (a, b, c) /\
  a * a + b * b + c * c = 1 /\
  tex_coords (a, b, c) = (texU_spec a c, texV_spec b) /\
  let px := px_spec (shape1 (ldr_of red_4x2)) (texU_spec a c) in
  let py := py_spec (shape0 (ldr_of red_4x2)) (texV_spec b) in
  (0 <= px <= shape1 (ldr_of red_4x2) - 1)%Z /\
  (0 <= py <= shape0 (ldr_of red_4x2) - 1)%Z /\
  sample_equirect (ldr_of red_4x2) 3 0 4 = Ok (item (ldr_of red_4x2) py px).
Proof.
  apply (sample_equirect_nearest (ldr_of red_4x2) 3 0 4).
  - intros H. injection H as H. lra.
  - cbn. lia.
  - cbn. lia.
Defined.

(** C3.  The tonemapper keeps the shape of the panorama, and every channel
    of every pixel of its output is the channel of the input multiplied by
    1.5, clamped to [0, 1], raised to the power 1/2.2, multiplied by 255 and
    truncated; the truncated value is stored in the 8-bit channel as it is. *)
Theorem tonemap_steps (hdr : ndarray hdr_pixel) (i j : Z) :
  shape0 (tonemap hdr) = shape0 hdr /\
  shape1 (tonemap hdr) = shape1 hdr /\
  item (tonemap hdr) i j = Np.map3 tonemap_channel_spec (item hdr i j).
Proof.
  repeat split. apply tonemap_item.
Qed.

(** C4, as the specification states it, fails: an explicit size that is not
    positive is used as it is, and [h // 2] is not taken in its place. *)
Lemma resolve_keeps_nonpositive_size :
  snd (resolve_size 1024 512 (Some 0%Z) []) <> Ok (resolve_spec 512 (Some 0%Z)).
Proof.
  cbn. discriminate.
Qed.

(** C4, amended.  The face size resolver returns an explicit size as it is,
    positive or not, and [h // 2] exactly when no size is given; in
    particular height 512 without a size gives 256, height 511 without a
    size gives 255, and height 512 with size 100 gives 100. *)
Theorem resolve_size_policy (width height : Z) (size : option Z) (log : list event) :
  snd (resolve_size width height size log) =
    Ok (match size with
        | Some s => s
        | None => Py.floordiv height 2
        end) /\
  resolve 512 None = Ok 256%Z /\
  resolve 511 None = Ok 255%Z /\
  resolve 512 (Some 100%Z) = Ok 100%Z.
Proof.
  split; [destruct size; reflexivity |].
  repeat split.
Qed.




(** The face buffers of a run on the red 4 x 2 panorama are red. *)
Lemma red_sample_at (n : Z) (f : Face) (i j : Z) :
  sample_at (ldr_of red_4x2) n (face_dir f) i j = Ok (255, 0, 0)%Z.
Proof.
  unfold sample_at.
  pose proof (face_dir_nonzero f (face_coord n j) (face_coord n i)) as Hne.
  destruct (face_dir f (face_coord n j) (face_coord n i)) as [[x y] z].
  destruct (sample_equirect_ok (ldr_of red_4x2) x y z Hne)
    as [vec [py [px [_ [_ [_ [_ Hs]]]]]]]; [cbn; lia | cbn; lia |].
  rewrite Hs. unfold ldr_of. rewrite tonemap_item. cbn [Np.stack3 item red_4x2 constant_exr
    channel_R channel_G channel_B Np.map3].
  now rewrite tonemap_channel_spec_one, tonemap_channel_spec_zero.
Qed.

(** C6.  On the 4 x 2 panorama whose every pixel is (1.0, 0.0, 0.0) the run
    completes, every face buffer holds (255, 0, 0), and every image handed
    to the writer holds (0, 0, 255): the conversion applied before saving
    exchanges the first and the third channel. *)
Theorem red_panorama_is_saved_blue :
  exists log,
    exr_to_cubemap red_4x2 None [] = (log, Ok tt) /\
    map fst (saved log) = map face_name all_faces /\
    forall name img, In (name, img) (saved log) ->
      shape0 img = 1%Z /\ shape1 img = 1%Z /\
      Np.getitem img 0 0 = Ok (0, 0, 255)%Z.
Proof.
  destruct (exr_to_cubemap_ok red_4x2 None) as [faces [Hrun Hfaces]];
    [cbn; lia | cbn; lia | cbn; lia |].
  change (face_size_of red_4x2 None) with 1%Z in *.
  eexists. split; [exact Hrun |].
  rewrite !saved_app. cbn [saved resolve_log flat_map repeat save_log all_faces app map fst].
  split; [reflexivity |].
  intros name img Hin.
  assert (Himg : exists f, img = swapped (faces f)).
  { cbn in Hin. repeat destruct Hin as [Hin | Hin];
      try (injection Hin as _ <-; eauto); contradiction. }
  destruct Himg as [f ->]. destruct (Hfaces f) as [H0 [H1 Hget]].
  cbn [swapped shape0 shape1]. repeat split; try assumption.
  specialize (Hget 0%Z 0%Z ltac:(lia) ltac:(lia)).
  rewrite red_sample_at, getitem_in_bounds in Hget by lia.
  unfold pixel in *.
  rewrite getitem_in_bounds by (unfold swapped; simpl; lia).
  unfold swapped; simpl. injection Hget as ->. reflexivity.
Qed.

(** The face buffers themselves, before the conversion, are red. *)
Lemma red_panorama_faces_red (log : list event) (f : Face) :
  exists faces face,
    snd (project (ldr_of red_4x2) 1 log) = Ok faces /\
    dict_get faces (face_name f) = Some face /\
    Np.getitem face 0 0 = Ok (255, 0, 0)%Z.
Proof.
  destruct (project_ok (ldr_of red_4x2) 1 log) as [faces [Hrun Hfaces]]; [lia | |].
  { intros f' i j _ _. rewrite red_sample_at. eauto. }
  exists (faces_dict faces), (faces f).
  rewrite Hrun, dict_get_faces. repeat split.
  destruct (Hfaces f) as [_ [_ Hget]]. rewrite Hget by lia. apply red_sample_at.
Qed.

(** C7.  Whatever the input channel values are, negative and above 1
    included, every channel of every pixel the tonemapper produces lies in
    [0, 255], and it is the truncation of a value that already lies in
    [0, 255], so the 8-bit cast never wraps.  The tonemapper has no exception
    branch: [tonemap] is a total function on arrays. *)
Theorem tonemap_range (hdr : ndarray hdr_pixel) (i j : Z) :
  channels_within 0 255 (item (tonemap hdr) i j) /\
  item (tonemap hdr) i j =
    Np.map3 (fun x => Py.int (Np.pow (Rmin 1 (Rmax (x * 1.5) 0)) (1 / 2.2) * 255))
      (item hdr i j).
Proof.
  rewrite tonemap_item. unfold hdr_pixel in *.
  destruct (item hdr i j) as [[r g] b]. cbn [Np.map3 channels_within].
  split.
  - repeat split; apply tonemap_channel_spec_range.
  - rewrite !clip_is_clamp01.
    rewrite !int_nonneg by apply scaled_range. reflexivity.
Qed.

(** C8.  For every unit-length direction d, the texture coordinates
    texU = 0.5 + atan2(x, z) / (2 pi), texV = 0.5 - asin(y) / pi of d are
    mapped back to d by the inverse spherical mapping (exactly, over the
    reals). *)
Theorem spherical_round_trip (x y z : R) :
  x * x + y * y + z * z = 1 -> inverse_spherical (tex_coords (x, y, z)) = (x, y, z).
Proof.
  intros Hunit.
  pose proof (tex_coords_angles x y z) as Hang.
  assert (Htex : tex_coords (x, y, z) = (texU_spec x z, texV_spec y)) by reflexivity.
  rewrite Htex in *. destruct Hang as [Hlon Hlat].
  unfold inverse_spherical. rewrite Hlon, Hlat.
  pose proof (unit_component_bound x y z Hunit) as Hy.
  rewrite cos_asin, sin_asin by exact Hy.
  replace (1 - y²) with (x * x + z * z) by (unfold Rsqr; lra).
  destruct (arctan2_polar x z) as [-> ->]. reflexivity.
Qed.

Lemma spherical_round_trip_witness :
  inverse_spherical (tex_coords (0, 0, 1)) = (0, 0, 1).
Proof.
  apply (spherical_round_trip 0 0 1). lra.
Defined.

(** C9.  For each of the six faces, the direction the face passes to the
    sampler at u = v = 0, scaled to unit length, is the canonical axis of the
    face: right (1,0,0), left (-1,0,0), top (0,1,0), bottom (0,-1,0),
    front (0,0,1), back (0,0,-1). *)
Theorem face_centre_is_axis (f : Face) :
  let '(x, y, z) := face_dir f 0 0 in normalize x y z = Ok (face_axis f).
Proof.
  assert (Hone : forall s, s = 1 -> sqrt s = 1) by (intros s ->; apply sqrt_1).
  destruct f; cbn [face_dir dir_right dir_left dir_top dir_bottom dir_front dir_back];
    unfold normalize, Np.vec_div, Np.linalg_norm;
    (rewrite Hone by ring);
    (destruct (Req_dec_T 1 0) as [H | _]; [lra |]);
    cbn [Np.map3 face_axis]; repeat f_equal; field.
Qed.

(** C10.  For the direction of every pixel of every face, on a source image
    of width w >= 1 and height h >= 1, the pixel index sample_equirect
    computes satisfies 0 <= px <= w - 1 and 0 <= py <= h - 1; the lookup
    uses both indices as they are (neither is negative, neither is out of
    range) and returns the source pixel at (py, px). *)
Theorem face_samples_in_bounds (ldr : ndarray pixel) (face_size : Z) (f : Face)
    (i j : Z) :
  (1 <= shape1 ldr)%Z -> (1 <= shape0 ldr)%Z ->
  (0 <= i < face_size)%Z -> (0 <= j < face_size)%Z ->
  let '(x, y, z) := face_dir f (face_coord face_size j) (face_coord face_size i) in
  (x, y, z) <> (0, 0, 0) /\
  exists vec py px,
    normalize x y z = Ok vec /\
    pixel_index (shape1 ldr) (shape0 ldr) (tex_coords vec) = (py, px) /\
    (0 <= px <= shape1 ldr - 1)%Z /\ (0 <= py <= shape0 ldr - 1)%Z /\
    Np.index (shape0 ldr) py = Ok py /\ Np.index (shape1 ldr) px = Ok px /\
    sample_equirect ldr x y z = Ok (item ldr py px).
Proof.
  intros Hw Hh _ _.
  pose proof (face_dir_nonzero f (face_coord face_size j) (face_coord face_size i)) as Hne.
  destruct (face_dir f (face_coord face_size j) (face_coord face_size i)) as [[x y] z].
  split; [exact Hne |].
  destruct (sample_equirect_ok ldr x y z Hne Hw Hh)
    as [vec [py [px [Hnorm [Hidx [Hpy [Hpx Hs]]]]]]].
  exists vec, py, px.
  repeat split; try assumption; try lia; apply index_in_bounds; lia.
Qed.

Lemma face_samples_in_bounds_witness :
  let '(x, y, z) := face_dir Back (face_coord 1 0) (face_coord 1 0) in
  (x, y, z) <> (0, 0, 0) /\
  exists vec py px,
    normalize x y z = Ok vec /\
    pixel_index 4 2 (tex_coords vec) = (py, px) /\
    (0 <= px <= 4 - 1)%Z /\ (0 <= py <= 2 - 1)%Z /\
    Np.index 2 py = Ok py /\ Np.index 4 px = Ok px /\
    sample_equirect (ldr_of red_4x2) x y z = Ok (item (ldr_of red_4x2) py px).
Proof.
  apply (face_samples_in_bounds (ldr_of red_4x2) 1 Back 0 0); cbn; lia.
Defined.

(* ================================================================== *)
(** ** Further properties of the program: every run, whatever its input *)

Lemma for_each_invariant {S : Type} (P : S -> Prop) (body : Z -> S -> result S)
    (l : list Z) : forall s s',
  (forall i t t', body i t = Ok t' -> P t -> P t') ->
  P s -> Py.for_each l body s = Ok s' -> P s'.
Proof.
  induction l as [| i l IH]; intros s s' Hbody Hs Hrun; cbn in Hrun.
  - now injection Hrun as <-.
  - destruct (body i s) as [t | e] eqn:Hstep; [| discriminate].
    apply (IH t s' Hbody); [| exact Hrun]. exact (Hbody i s t Hstep Hs).
Qed.

Lemma setitem_shape {A : Type} (a a' : ndarray A) (i j : Z) (v : A) :
  Np.setitem a i j v = Ok a' -> shape0 a' = shape0 a /\ shape1 a' = shape1 a.
Proof.
  unfold Np.setitem.
  destruct (Np.index (shape0 a) i); [| discriminate].
  destruct (Np.index (shape1 a) j); [| discriminate].
  cbn. intros H. injection H as <-. now split.
Qed.

Lemma fill_pixel_shape (ldr : ndarray pixel) (n : Z) (dir : R -> R -> R * R * R)
    (i j : Z) (a a' : ndarray pixel) :
  fill_pixel ldr n dir i j a = Ok a' -> shape0 a' = shape0 a /\ shape1 a' = shape1 a.
Proof.
  unfold fill_pixel.
  destruct (dir (face_coord n j) (face_coord n i)) as [[x y] z].
  destruct (sample_equirect ldr x y z) as [p | e]; [| discriminate].
  cbn [Py.bind]. apply setitem_shape.
Qed.

Lemma fill_face_shape (ldr : ndarray pixel) (n : Z) (dir : R -> R -> R * R * R)
    (a a' : ndarray pixel) :
  fill_face ldr n dir a = Ok a' -> shape0 a' = shape0 a /\ shape1 a' = shape1 a.
Proof.
  unfold fill_face.
  apply (for_each_invariant (fun t => shape0 t = shape0 a /\ shape1 t = shape1 a));
    [| now split].
  intros i t t' Hrow Ht. revert Hrow.
  apply (for_each_invariant (fun t => shape0 t = shape0 a /\ shape1 t = shape1 a));
    [| exact Ht].
  intros j u u' Hpix [H0 H1].
  destruct (fill_pixel_shape _ _ _ _ _ _ _ Hpix) as [-> ->]. now split.
Qed.

(** One face either comes back with the requested shape, having been
    allocated, or the exception leaves at most that one allocation behind. *)
Lemma make_face_cases (ldr : ndarray pixel) (n : Z) (dir : R -> R -> R * R * R)
    (log : list event) :
  (exists face, make_face ldr n dir log = (log ++ [AllocFace n], Ok face) /\
                shape0 face = n /\ shape1 face = n) \/
  (exists e, make_face ldr n dir log = (log, Raise e)) \/
  (exists e, make_face ldr n dir log = (log ++ [AllocFace n], Raise e)).
Proof.
  unfold make_face, bindM, lift, emit, Np.zeros.
  destruct (Z.ltb_spec n 0) as [Hneg | Hnn].
  - right. left. eauto.
  - destruct (fill_face ldr n dir (mk_ndarray n n (fun _ _ => (0, 0, 0)%Z)))
      as [face | e] eqn:Hfill.
    + left. exists face. split; [reflexivity |].
      exact (fill_face_shape _ _ _ _ _ Hfill).
    + right. right. eauto.
Qed.

(** The projector either returns six faces of the requested shape after six
    allocations, or raises after at most six. *)
Lemma project_cases (ldr : ndarray pixel) (n : Z) (log : list event) :
  (exists faces : Face -> ndarray pixel,
     project ldr n log =
       (log ++ PrintGenerating n :: repeat (AllocFace n) 6, Ok (faces_dict faces)) /\
     forall f, shape0 (faces f) = n /\ shape1 (faces f) = n) \/
  (exists e k, (k <= 6)%nat /\
     project ldr n log = (log ++ PrintGenerating n :: repeat (AllocFace n) k, Raise e)).
Proof.
  set (log0 := log ++ [PrintGenerating n]).
  assert (Hlog : forall k, log ++ PrintGenerating n :: repeat (AllocFace n) k =
                           log0 ++ repeat (AllocFace n) k).
  { intros k. unfold log0. now rewrite <- app_assoc. }
  assert (Hsnoc : forall k, (log0 ++ repeat (AllocFace n) k) ++ [AllocFace n] =
                            log0 ++ repeat (AllocFace n) (S k)).
  { intros k. rewrite <- app_assoc. f_equal.
    change [AllocFace n] with (repeat (AllocFace n) 1).
    rewrite <- repeat_app. f_equal. lia. }
  destruct (project ldr n log) as [log' r] eqn:Hp.
  unfold project in Hp. unfold bindM at 1 in Hp. cbn [emit] in Hp. fold log0 in Hp.
  rewrite <- (app_nil_r log0) in Hp.
  change (@nil event) with (repeat (AllocFace n) 0) in Hp.
  destruct (make_face_cases ldr n dir_right (log0 ++ repeat (AllocFace n) 0))
    as [[fr [Rr Sr]] | [[e Rr] | [e Rr]]]; unfold bindM at 1 in Hp; rewrite Rr in Hp;
    [rewrite Hsnoc in Hp
    | injection Hp as <- <-; right; exists e, 0%nat; split; [lia | now rewrite Hlog]
    | rewrite Hsnoc in Hp; injection Hp as <- <-; right; exists e, 1%nat; split;
      [lia | now rewrite Hlog] ].
  destruct (make_face_cases ldr n dir_left (log0 ++ repeat (AllocFace n) 1))
    as [[fl [Rl Sl]] | [[e Rl] | [e Rl]]]; unfold bindM at 1 in Hp; rewrite Rl in Hp;
    [rewrite Hsnoc in Hp
    | injection Hp as <- <-; right; exists e, 1%nat; split; [lia | now rewrite Hlog]
    | rewrite Hsnoc in Hp; injection Hp as <- <-; right; exists e, 2%nat; split;
      [lia | now rewrite Hlog] ].
  destruct (make_face_cases ldr n dir_top (log0 ++ repeat (AllocFace n) 2))
    as [[ft [Rt St]] | [[e Rt] | [e Rt]]]; unfold bindM at 1 in Hp; rewrite Rt in Hp;
    [rewrite Hsnoc in Hp
    | injection Hp as <- <-; right; exists e, 2%nat; split; [lia | now rewrite Hlog]
    | rewrite Hsnoc in Hp; injection Hp as <- <-; right; exists e, 3%nat; split;
      [lia | now rewrite Hlog] ].
  destruct (make_face_cases ldr n dir_bottom (log0 ++ repeat (AllocFace n) 3))
    as [[fb [Rb Sb]] | [[e Rb] | [e Rb]]]; unfold bindM at 1 in Hp; rewrite Rb in Hp;
    [rewrite Hsnoc in Hp
    | injection Hp as <- <-; right; exists e, 3%nat; split; [lia | now rewrite Hlog]
    | rewrite Hsnoc in Hp; injection Hp as <- <-; right; exists e, 4%nat; split;
      [lia | now rewrite Hlog] ].
  destruct (make_face_cases ldr n dir_front (log0 ++ repeat (AllocFace n) 4))
    as [[ff [Rf Sf]] | [[e Rf] | [e Rf]]]; unfold bindM at 1 in Hp; rewrite Rf in Hp;
    [rewrite Hsnoc in Hp
    | injection Hp as <- <-; right; exists e, 4%nat; split; [lia | now rewrite Hlog]
    | rewrite Hsnoc in Hp; injection Hp as <- <-; right; exists e, 5%nat; split;
      [lia | now rewrite Hlog] ].
  destruct (make_face_cases ldr n dir_back (log0 ++ repeat (AllocFace n) 5))
    as [[fk [Rk Sk]] | [[e Rk] | [e Rk]]]; unfold bindM at 1 in Hp; rewrite Rk in Hp;
    [rewrite Hsnoc in Hp
    | injection Hp as <- <-; right; exists e, 5%nat; split; [lia | now rewrite Hlog]
    | rewrite Hsnoc in Hp; injection Hp as <- <-; right; exists e, 6%nat; split;
      [lia | now rewrite Hlog] ].
  unfold ret in Hp. injection Hp as <- <-.
  left.
  exists (fun f => match f with
                   | Right => fr | Left => fl | Top => ft
                   | Bottom => fb | Front => ff | Back => fk
                   end).
  split; [| intros []; assumption].
  now rewrite Hlog.
Qed.

Lemma saved_generating (n : Z) (k : nat) :
  saved (PrintGenerating n :: repeat (AllocFace n) k) = [].
Proof. cbn. induction k as [| k IH]; [reflexivity | exact IH]. Qed.

Lemma allocations_generating (n : Z) (k : nat) :
  allocations (PrintGenerating n :: repeat (AllocFace n) k) = repeat n k.
Proof. cbn. induction k as [| k IH]; [reflexivity | cbn; now rewrite IH]. Qed.

Lemma saved_save_log (faces : Face -> ndarray pixel) :
  saved (save_log faces) = map (fun f => (face_name f, swapped (faces f))) all_faces.
Proof. reflexivity. Qed.

Lemma allocations_save_log (faces : Face -> ndarray pixel) :
  allocations (save_log faces) = [].
Proof. reflexivity. Qed.

Lemma cvtColor_nonpositive {A : Type} (img : ndarray (A * A * A)) :
  (shape0 img <= 0)%Z -> Cv2.cvtColor_BGR2RGB img = Raise Cv2Error.
Proof.
  intros H0. unfold Cv2.cvtColor_BGR2RGB.
  destruct (Z.leb_spec (shape0 img) 0) as [_ | H]; [reflexivity | lia].
Qed.

Lemma save_nonpositive (faces : Face -> ndarray pixel) (log : list event) :
  (forall f, (shape0 (faces f) <= 0)%Z) ->
  save (faces_dict faces) log = (log ++ [Makedirs], Raise Cv2Error).
Proof.
  intros Hs.
  unfold save, faces_dict, all_faces. cbn [map for_items].
  unfold bindM, emit, lift, ret.
  now rewrite (cvtColor_nonpositive (faces Right)) by apply Hs.
Qed.

(** What a run on a non-empty panorama with a positive face size leaves
    behind: the images it saved, the buffers it allocated, and the content
    of each face. *)
Lemma run_saved (exr : exr_file) (size : option Z) :
  (1 <= exr_width exr)%Z -> (1 <= exr_height exr)%Z ->
  (0 < face_size_of exr size)%Z ->
  exists faces : Face -> ndarray pixel,
    snd (exr_to_cubemap exr size []) = Ok tt /\
    saved (fst (exr_to_cubemap exr size [])) =
      map (fun f => (face_name f, swapped (faces f))) all_faces /\
    allocations (fst (exr_to_cubemap exr size [])) = repeat (face_size_of exr size) 6 /\
    forall f,
      shape0 (faces f) = face_size_of exr size /\
      shape1 (faces f) = face_size_of exr size /\
      forall i j, (0 <= i < face_size_of exr size)%Z ->
                  (0 <= j < face_size_of exr size)%Z ->
                  Np.getitem (faces f) i j =
                  sample_at (ldr_of exr) (face_size_of exr size) (face_dir f) i j.
Proof.
  intros Hw Hh Hn.
  destruct (exr_to_cubemap_ok exr size Hw Hh Hn) as [faces [Hrun Hfaces]].
  exists faces. rewrite Hrun. cbn [fst snd].
  rewrite !saved_app, !allocations_app, saved_resolve_log, allocations_resolve_log.
  rewrite saved_generating, allocations_generating, saved_save_log, allocations_save_log.
  cbn [app]. rewrite app_nil_r.
  split; [reflexivity |]. split; [reflexivity |]. split; [reflexivity | exact Hfaces].
Qed.

Lemma in_saved_faces (faces : Face -> ndarray pixel) (name : string)
    (img : ndarray pixel) :
  In (name, img) (map (fun f => (face_name f, swapped (faces f))) all_faces) ->
  exists f, name = face_name f /\ img = swapped (faces f).
Proof.
  intros Hin. apply in_map_iff in Hin. destruct Hin as [f [Heq _]].
  injection Heq as <- <-. eauto.
Qed.

(** X1.  On a panorama with at least one pixel the run completes exactly
    when the face size is positive. *)
Theorem run_completes_iff_positive_size (exr : exr_file) (size : option Z) :
  (1 <= exr_width exr)%Z -> (1 <= exr_height exr)%Z ->
  (snd (exr_to_cubemap exr size []) = Ok tt <-> (0 < face_size_of exr size)%Z).
Proof.
  intros Hw Hh. split.
  - intros Hok.
    destruct (Z.lt_ge_cases 0 (face_size_of exr size)) as [Hpos | Hle]; [exact Hpos |].
    exfalso. rewrite exr_to_cubemap_unfold in Hok.
    destruct (project_cases (ldr_of exr) (face_size_of exr size)
                ([] ++ resolve_log exr size))
      as [[faces [Hrun Hsh]] | [e [k [_ Hrun]]]]; rewrite Hrun in Hok.
    + rewrite save_nonpositive in Hok; [discriminate |].
      intros f. destruct (Hsh f) as [-> _]. exact Hle.
    + discriminate.
  - intros Hpos. destruct (run_saved exr size Hw Hh Hpos) as [faces [Hok _]]. exact Hok.
Qed.

Lemma run_completes_iff_positive_size_witness :
  snd (exr_to_cubemap red_4x2 (Some 3%Z) []) = Ok tt <->
  (0 < face_size_of red_4x2 (Some 3%Z))%Z.
Proof.
  apply (run_completes_iff_positive_size red_4x2 (Some 3%Z)); cbn; lia.
Defined.

(** X2.  A completed run has allocated six face buffers and handed the
    writer exactly six images, named right, left, top, bottom, front and
    back in this order, each of face_size rows and face_size columns. *)
Theorem run_saves_six_faces (exr : exr_file) (size : option Z) :
  (1 <= exr_width exr)%Z -> (1 <= exr_height exr)%Z ->
  (0 < face_size_of exr size)%Z ->
  map fst (saved (fst (exr_to_cubemap exr size []))) = face_names /\
  allocations (fst (exr_to_cubemap exr size [])) = repeat (face_size_of exr size) 6 /\
  forall name img, In (name, img) (saved (fst (exr_to_cubemap exr size []))) ->
                   shape0 img = face_size_of exr size /\
                   shape1 img = face_size_of exr size.
Proof.
  intros Hw Hh Hn.
  destruct (run_saved exr size Hw Hh Hn) as [faces [_ [Hsaved [Halloc Hfaces]]]].
  rewrite Hsaved, Halloc. repeat split.
  - destruct (in_saved_faces _ _ _ H) as [f [_ ->]]. apply (Hfaces f).
  - destruct (in_saved_faces _ _ _ H) as [f [_ ->]]. apply (Hfaces f).
Qed.

Lemma run_saves_six_faces_witness :
  map fst (saved (fst (exr_to_cubemap red_4x2 (Some 3%Z) []))) = face_names /\
  allocations (fst (exr_to_cubemap red_4x2 (Some 3%Z) [])) =
    repeat (face_size_of red_4x2 (Some 3%Z)) 6 /\
  forall name img, In (name, img) (saved (fst (exr_to_cubemap red_4x2 (Some 3%Z) []))) ->
                   shape0 img = face_size_of red_4x2 (Some 3%Z) /\
                   shape1 img = face_size_of red_4x2 (Some 3%Z).
Proof.
  apply (run_saves_six_faces red_4x2 (Some 3%Z)); cbn; lia.
Defined.

Lemma in_all_faces (f : Face) : In f all_faces.
Proof. destruct f; cbn; tauto. Qed.

(** X3.  Every pixel of the image a completed run hands to the writer for a
    face is one pixel of the panorama, tonemapped channel by channel, with
    its first and third channel exchanged: the image's channel 0 is the
    tonemapped B plane and its channel 2 the tonemapped R plane. *)
Theorem saved_pixels_are_swapped_source_pixels (exr : exr_file) (size : option Z)
    (f : Face) (i j : Z) :
  (1 <= exr_width exr)%Z -> (1 <= exr_height exr)%Z ->
  (0 <= i < face_size_of exr size)%Z -> (0 <= j < face_size_of exr size)%Z ->
  exists (img : ndarray pixel) (py px : Z),
    In (face_name f, img) (saved (fst (exr_to_cubemap exr size []))) /\
    (0 <= py < exr_height exr)%Z /\ (0 <= px < exr_width exr)%Z /\
    Np.getitem img i j =
      Ok (tonemap_channel_spec (channel_B exr py px),
          tonemap_channel_spec (channel_G exr py px),
          tonemap_channel_spec (channel_R exr py px)).
Proof.
  intros Hw Hh Hi Hj.
  destruct (run_saved exr size Hw Hh ltac:(lia)) as [faces [_ [Hsaved [_ Hfaces]]]].
  destruct (Hfaces f) as [H0 [H1 Hget]]. specialize (Hget i j Hi Hj).
  unfold sample_at in Hget.
  pose proof (face_dir_nonzero f (face_coord (face_size_of exr size) j)
                (face_coord (face_size_of exr size) i)) as Hne.
  destruct (face_dir f (face_coord (face_size_of exr size) j)
              (face_coord (face_size_of exr size) i)) as [[x y] z].
  destruct (sample_equirect_ok (ldr_of exr) x y z Hne Hw Hh)
    as [vec [py [px [_ [_ [Hpy [Hpx Hs]]]]]]].
  change (shape0 (ldr_of exr)) with (exr_height exr) in Hpy.
  change (shape1 (ldr_of exr)) with (exr_width exr) in Hpx.
  exists (swapped (faces f)), py, px. rewrite Hsaved.
  split; [| split; [lia | split; [lia |]]].
  { apply (in_map (fun f => (face_name f, swapped (faces f)))), in_all_faces. }
  assert (Hitem : item (ldr_of exr) py px =
                  Np.map3 tonemap_channel_spec (hdr_at exr py px))
    by (unfold ldr_of; now rewrite tonemap_item).
  rewrite Hs, Hitem in Hget. unfold pixel in *.
  rewrite getitem_in_bounds in Hget by lia. injection Hget as Hget.
  rewrite getitem_in_bounds by (unfold swapped; simpl; lia).
  unfold swapped. cbn [item]. rewrite Hget. reflexivity.
Qed.

Lemma saved_pixels_are_swapped_source_pixels_witness :
  exists (img : ndarray pixel) (py px : Z),
    In (face_name Top, img) (saved (fst (exr_to_cubemap red_4x2 None []))) /\
    (0 <= py < exr_height red_4x2)%Z /\ (0 <= px < exr_width red_4x2)%Z /\
    Np.getitem img 0 0 =
      Ok (tonemap_channel_spec (channel_B red_4x2 py px),
          tonemap_channel_spec (channel_G red_4x2 py px),
          tonemap_channel_spec (channel_R red_4x2 py px)).
Proof.
  apply (saved_pixels_are_swapped_source_pixels red_4x2 None Top 0 0); cbn; lia.
Defined.

(** X4.  All or nothing: whatever the panorama and the size, a run either
    completes, having handed all six images to the writer, or raises without
    having handed it any. *)
Theorem run_all_or_nothing (exr : exr_file) (size : option Z) :
  (snd (exr_to_cubemap exr size []) = Ok tt /\
   map fst (saved (fst (exr_to_cubemap exr size []))) = face_names) \/
  (exists e, snd (exr_to_cubemap exr size []) = Raise e /\
             saved (fst (exr_to_cubemap exr size [])) = []).
Proof.
  rewrite exr_to_cubemap_unfold.
  destruct (project_cases (ldr_of exr) (face_size_of exr size) ([] ++ resolve_log exr size))
    as [[faces [Hrun Hsh]] | [e [k [_ Hrun]]]]; rewrite Hrun.
  - destruct (Z.lt_ge_cases 0 (face_size_of exr size)) as [Hpos | Hle].
    + left. rewrite save_ok by (intros f; destruct (Hsh f) as [-> ->]; lia).
      cbn [fst snd]. split; [reflexivity |].
      rewrite !saved_app, saved_resolve_log, saved_generating, saved_save_log.
      reflexivity.
    + right. exists Cv2Error.
      rewrite save_nonpositive by (intros f; destruct (Hsh f) as [-> _]; exact Hle).
      cbn [fst snd]. split; [reflexivity |].
      rewrite !saved_app, saved_resolve_log, saved_generating. reflexivity.
  - right. exists e. cbn [fst snd]. split; [reflexivity |].
    rewrite !saved_app, saved_resolve_log, saved_generating. reflexivity.
Qed.

Lemma constant_sample_at (w h : Z) (c : hdr_pixel) (n : Z) (f : Face) (i j : Z) :
  (1 <= w)%Z -> (1 <= h)%Z ->
  sample_at (ldr_of (constant_exr w h c)) n (face_dir f) i j =
  Ok (Np.map3 tonemap_channel_spec c).
Proof.
  intros Hw Hh. unfold sample_at.
  pose proof (face_dir_nonzero f (face_coord n j) (face_coord n i)) as Hne.
  destruct (face_dir f (face_coord n j) (face_coord n i)) as [[x y] z].
  destruct c as [[r g] b].
  destruct (sample_equirect_ok (ldr_of (constant_exr w h (r, g, b))) x y z Hne)
    as [vec [py [px [_ [_ [_ [_ Hs]]]]]]];
    [unfold ldr_of, exr_width, constant_exr; cbn; lia
    | unfold ldr_of, exr_height, constant_exr; cbn; lia |].
  rewrite Hs. unfold ldr_of. rewrite tonemap_item. reflexivity.
Qed.

(** X5.  A panorama of one colour gives faces of one colour: every pixel of
    every image handed to the writer is the tonemapped colour with its first
    and third channel exchanged, whatever the face size. *)
Theorem constant_panorama_gives_constant_faces (w h : Z) (c : hdr_pixel)
    (size : option Z) (f : Face) (i j : Z) :
  (1 <= w)%Z -> (1 <= h)%Z ->
  (0 <= i < face_size_of (constant_exr w h c) size)%Z ->
  (0 <= j < face_size_of (constant_exr w h c) size)%Z ->
  exists img : ndarray pixel,
    In (face_name f, img) (saved (fst (exr_to_cubemap (constant_exr w h c) size []))) /\
    Np.getitem img i j = Ok (swap_channels (Np.map3 tonemap_channel_spec c)).
Proof.
  intros Hw Hh Hi Hj.
  assert (Hw' : (1 <= exr_width (constant_exr w h c))%Z)
    by (destruct c as [[r g] b]; unfold exr_width, constant_exr; cbn; lia).
  assert (Hh' : (1 <= exr_height (constant_exr w h c))%Z)
    by (destruct c as [[r g] b]; unfold exr_height, constant_exr; cbn; lia).
  destruct (run_saved (constant_exr w h c) size Hw' Hh' ltac:(lia))
    as [faces [_ [Hsaved [_ Hfaces]]]].
  destruct (Hfaces f) as [H0 [H1 Hget]]. specialize (Hget i j Hi Hj).
  rewrite constant_sample_at in Hget by assumption.
  exists (swapped (faces f)). rewrite Hsaved. split.
  { apply (in_map (fun f => (face_name f, swapped (faces f)))), in_all_faces. }
  unfold pixel in *.
  rewrite getitem_in_bounds in Hget by lia. injection Hget as Hget.
  rewrite getitem_in_bounds by (unfold swapped; simpl; lia).
  unfold swapped. cbn [item]. now rewrite Hget.
Qed.

Lemma constant_panorama_gives_constant_faces_witness :
  exists img : ndarray pixel,
    In (face_name Back, img)
       (saved (fst (exr_to_cubemap (constant_exr 8 4 (0.25, 2, -1)) None []))) /\
    Np.getitem img 1 0 = Ok (swap_channels (Np.map3 tonemap_channel_spec (0.25, 2, -1))).
Proof.
  apply (constant_panorama_gives_constant_faces 8 4 (0.25, 2, -1) None Back 1 0);
    cbn; lia.
Defined.

(* ================================================================== *)
(** ** Further properties of the sampler *)

Lemma linalg_norm_scale (k x y z : R) :
  0 <= k -> Np.linalg_norm (k * x, k * y, k * z) = k * Np.linalg_norm (x, y, z).
Proof.
  intros Hk. unfold Np.linalg_norm.
  replace (k * x * (k * x) + k * y * (k * y) + k * z * (k * z))
    with (k * k * (x * x + y * y + z * z)) by ring.
  rewrite sqrt_mult_alt by nra. now rewrite sqrt_square.
Qed.

Lemma normalize_scale (k x y z : R) :
  0 < k -> normalize (k * x) (k * y) (k * z) = normalize x y z.
Proof.
  intros Hk. unfold normalize, Np.vec_div.
  rewrite linalg_norm_scale by lra.
  remember (Np.linalg_norm (x, y, z)) as n eqn:En. clear En.
  destruct (Req_dec_T (k * n) 0) as [Hkn | Hkn], (Req_dec_T n 0) as [Hn | Hn].
  - reflexivity.
  - exfalso. apply Rmult_integral in Hkn. lra.
  - exfalso. subst n. lra.
  - cbn [Np.map3].
    replace (k * x / (k * n)) with (x / n) by (field; split; lra).
    replace (k * y / (k * n)) with (y / n) by (field; split; lra).
    replace (k * z / (k * n)) with (z / n) by (field; split; lra).
    reflexivity.
Qed.

(** X6.  Sampling depends on the direction only, not on the length of the
    vector: a positive multiple of a vector samples the same pixel, or
    raises the same exception (over the reals). *)
Theorem sample_equirect_scale_invariant (ldr : ndarray pixel) (k x y z : R) :
  0 < k -> sample_equirect ldr (k * x) (k * y) (k * z) = sample_equirect ldr x y z.
Proof.
  intros Hk. unfold sample_equirect. now rewrite normalize_scale.
Qed.

Lemma sample_equirect_scale_invariant_witness :
  sample_equirect (ldr_of red_4x2) (2 * 1) (2 * 0.5) (2 * -3) =
  sample_equirect (ldr_of red_4x2) 1 0.5 (-3).
Proof.
  apply (sample_equirect_scale_invariant (ldr_of red_4x2) 2 1 0.5 (-3)). lra.
Defined.

(** X7.  On a source image with at least one pixel, whatever vector it is
    given, sampling either returns a pixel of the source or raises
    ValueError; the pixel lookup never raises IndexError.  The zero vector
    raises ValueError. *)
Theorem sample_equirect_never_index_error (ldr : ndarray pixel) (x y z : R) :
  (1 <= shape1 ldr)%Z -> (1 <= shape0 ldr)%Z ->
  sample_equirect ldr 0 0 0 = Raise ValueError /\
  match sample_equirect ldr x y z with
  | Ok p => exists py px : Z,
      (0 <= py < shape0 ldr)%Z /\ (0 <= px < shape1 ldr)%Z /\ p = item ldr py px
  | Raise e => e = ValueError
  end.
Proof.
  intros Hw Hh. split.
  { unfold sample_equirect. now rewrite normalize_zero. }
  assert (Hcases : (x, y, z) = (0, 0, 0) \/ (x, y, z) <> (0, 0, 0)).
  { destruct (Req_dec_T x 0) as [-> | Hx]; [| right; intros H; injection H; lra].
    destruct (Req_dec_T y 0) as [-> | Hy]; [| right; intros H; injection H; lra].
    destruct (Req_dec_T z 0) as [-> | Hz]; [| right; intros H; injection H; lra].
    now left. }
  destruct Hcases as [Hz | Hne].
  - injection Hz as -> -> ->.
    unfold sample_equirect. rewrite normalize_zero. reflexivity.
  - destruct (sample_equirect_ok ldr x y z Hne Hw Hh)
      as [vec [py [px [_ [_ [Hpy [Hpx ->]]]]]]].
    exists py, px. repeat split; lia.
Qed.

Lemma sample_equirect_never_index_error_witness :
  sample_equirect (ldr_of red_4x2) 0 0 0 = Raise ValueError /\
  match sample_equirect (ldr_of red_4x2) 1 2 (-2) with
  | Ok p => exists py px : Z,
      (0 <= py < shape0 (ldr_of red_4x2))%Z /\ (0 <= px < shape1 (ldr_of red_4x2))%Z /\
      p = item (ldr_of red_4x2) py px
  | Raise e => e = ValueError
  end.
Proof.
  apply (sample_equirect_never_index_error (ldr_of red_4x2) 1 2 (-2)); cbn; lia.
Defined.

(* ================================================================== *)
(** ** Further properties of the face geometry *)

Lemma face_coord_closed_form (n k : Z) :
  (0 < n)%Z -> face_coord n k = (2 * IZR k + 1 - IZR n) / IZR n.
Proof.
  intros Hn. unfold face_coord.
  assert (Hpos : 0 < IZR n) by (apply IZR_lt; lia).
  generalize dependent (IZR n). generalize (IZR k). intros K N HN.
  replace 0.5 with (1 / 2) by lra. field. lra.
Qed.

Lemma face_coord_range (n k : Z) : (0 <= k < n)%Z -> -1 < face_coord n k < 1.
Proof.
  intros Hk. rewrite face_coord_closed_form by lia.
  assert (Hn : 0 < IZR n) by (apply IZR_lt; lia).
  assert (Hk0 : 0 <= IZR k) by (apply IZR_le; lia).
  assert (Hk1 : IZR k + 1 <= IZR n) by (rewrite <- plus_IZR; apply IZR_le; lia).
  split.
  - apply Rmult_lt_reg_r with (IZR n); [exact Hn |].
    unfold Rdiv. rewrite Rmult_assoc, Rinv_l by lra. lra.
  - apply Rmult_lt_reg_r with (IZR n); [exact Hn |].
    unfold Rdiv. rewrite Rmult_assoc, Rinv_l by lra. lra.
Qed.

Lemma face_coord_injective (n k k' : Z) :
  (0 < n)%Z -> face_coord n k = face_coord n k' -> k = k'.
Proof.
  intros Hn Heq. rewrite !face_coord_closed_form in Heq by lia.
  assert (Hpos : 0 < IZR n) by (apply IZR_lt; lia).
  apply eq_IZR.
  apply (Rmult_eq_compat_r (IZR n)) in Heq.
  unfold Rdiv in Heq. rewrite !Rmult_assoc, Rinv_l in Heq by lra. lra.
Qed.

(** X8.  The face-local coordinates are pixel centres: for k in
    [0, face_size) the coordinate lies strictly between -1 and 1, and the
    coordinates are in the order of the indices. *)
Theorem face_coord_pixel_centres (n k k' : Z) :
  (0 <= k < n)%Z -> (0 <= k' < n)%Z ->
  -1 < face_coord n k < 1 /\
  ((k < k')%Z <-> face_coord n k < face_coord n k').
Proof.
  intros Hk Hk'. split; [now apply face_coord_range |].
  assert (Hn : 0 < IZR n) by (apply IZR_lt; lia).
  rewrite !face_coord_closed_form by lia.
  assert (Hdiv : forall p q, p < q <-> p / IZR n < q / IZR n).
  { intros p q. unfold Rdiv. split; intros H.
    - apply Rmult_lt_compat_r; [now apply Rinv_0_lt_compat | exact H].
    - apply Rmult_lt_reg_r with (/ IZR n); [now apply Rinv_0_lt_compat | exact H]. }
  rewrite <- Hdiv. split; intros H.
  - apply IZR_lt in H. lra.
  - apply lt_IZR. lra.
Qed.

Lemma face_coord_pixel_centres_witness :
  -1 < face_coord 4 1 < 1 /\
  ((1 < 3)%Z <-> face_coord 4 1 < face_coord 4 3).
Proof.
  apply (face_coord_pixel_centres 4 1 3); lia.
Defined.

Lemma face_dir_injective (f g : Face) (u v u' v' : R) :
  -1 < u < 1 -> -1 < v < 1 -> -1 < u' < 1 -> -1 < v' < 1 ->
  face_dir f u v = face_dir g u' v' -> f = g /\ u = u' /\ v = v'.
Proof.
  intros Hu Hv Hu' Hv'.
  destruct f, g; cbn; intros H; injection H; intros;
    try (exfalso; lra); repeat split; lra.
Qed.

(** X9.  No direction is sampled twice: two pixels of the six faces that are
    given the same direction vector are the same pixel of the same face. *)
Theorem face_pixel_directions_distinct (n : Z) (f g : Face) (i j i' j' : Z) :
  (0 <= i < n)%Z -> (0 <= j < n)%Z -> (0 <= i' < n)%Z -> (0 <= j' < n)%Z ->
  face_dir f (face_coord n j) (face_coord n i) =
  face_dir g (face_coord n j') (face_coord n i') ->
  f = g /\ i = i' /\ j = j'.
Proof.
  intros Hi Hj Hi' Hj' Heq.
  destruct (face_dir_injective f g _ _ _ _
              (face_coord_range n j Hj) (face_coord_range n i Hi)
              (face_coord_range n j' Hj') (face_coord_range n i' Hi') Heq)
    as [Hf [Hu Hv]].
  repeat split; [exact Hf | |]; apply (face_coord_injective n); (lia || assumption).
Qed.

Lemma face_pixel_directions_distinct_witness :
  Top = Top /\ 1%Z = 1%Z /\ 2%Z = 2%Z.
Proof.
  apply (face_pixel_directions_distinct 3 Top Top 1 2 1 2); try lia. reflexivity.
Defined.

Lemma arctan2_on_axes :
  Np.arctan2 1 0 = PI / 2 /\ Np.arctan2 (-1) 0 = - (PI / 2) /\
  Np.arctan2 0 1 = 0 /\ Np.arctan2 0 (-1) = PI /\ Np.arctan2 0 0 = 0.
Proof.
  unfold Np.arctan2. repeat split.
  - destruct (Rlt_dec 0 0); [lra |]. destruct (Rlt_dec 0 1); [reflexivity | lra].
  - destruct (Rlt_dec 0 0); [lra |]. destruct (Rlt_dec 0 (-1)); [lra |].
    destruct (Rlt_dec (-1) 0); [reflexivity | lra].
  - destruct (Rlt_dec 0 1); [| lra].
    replace (0 / 1) with 0 by field. apply atan_0.
  - destruct (Rlt_dec 0 (-1)); [lra |]. destruct (Rlt_dec (-1) 0); [| lra].
    destruct (Rle_dec 0 0); [| lra].
    replace (0 / -1) with 0 by field. rewrite atan_0. ring.
  - destruct (Rlt_dec 0 0); [lra | reflexivity].
Qed.

Lemma normalize_axis (f : Face) :
  let '(x, y, z) := face_axis f in normalize x y z = Ok (face_axis f).
Proof.
  assert (Hone : forall s, s = 1 -> sqrt s = 1) by (intros s ->; apply sqrt_1).
  destruct f; cbn [face_axis]; unfold normalize, Np.vec_div, Np.linalg_norm;
    (rewrite Hone by ring);
    (destruct (Req_dec_T 1 0) as [H | _]; [lra |]);
    cbn [Np.map3]; repeat f_equal; field.
Qed.

Lemma tex_coords_axis (f : Face) :
  tex_coords (face_axis f) =
  match f with
  | Right => (0.75, 0.5)
  | Left => (0.25, 0.5)
  | Top => (0.5, 0)
  | Bottom => (0.5, 1)
  | Front => (0.5, 0.5)
  | Back => (1, 0.5)
  end.
Proof.
  pose proof PI_RGT_0 as Hpi.
  destruct arctan2_on_axes as [A1 [A2 [A3 [A4 A5]]]].
  assert (Hm1 : asin (-1) = - (PI / 2)).
  { replace (IZR (-1)) with (Ropp 1) by lra. now rewrite asin_opp, asin_1. }
  assert (Q1 : PI / 2 / (2 * PI) = 1 / 4) by (field; lra).
  assert (Q2 : - (PI / 2) / (2 * PI) = - (1 / 4)) by (field; lra).
  assert (Q3 : 0 / (2 * PI) = 0) by (field; lra).
  assert (Q4 : PI / (2 * PI) = 1 / 2) by (field; lra).
  assert (Q5 : 0 / PI = 0) by (field; lra).
  assert (Q6 : PI / 2 / PI = 1 / 2) by (field; lra).
  assert (Q7 : - (PI / 2) / PI = - (1 / 2)) by (field; lra).
  destruct f; unfold tex_coords, face_axis, Np.arcsin;
    rewrite ?A1, ?A2, ?A3, ?A4, ?A5, ?asin_0, ?asin_1, ?Hm1;
    rewrite ?Q1, ?Q2, ?Q3, ?Q4, ?Q5, ?Q6, ?Q7; f_equal; lra.
Qed.

Lemma triple_eq (a b c a' b' c' : R) :
  a = a' -> b = b' -> c = c' -> (a, b, c) = (a', b', c').
Proof. now intros -> -> ->. Qed.

Lemma face_dir_centre (f : Face) : face_dir f 0 0 = face_axis f.
Proof.
  destruct f; cbn [face_dir dir_right dir_left dir_top dir_bottom dir_front dir_back
                   face_axis]; apply triple_eq; lra.
Qed.

Lemma floor_0 : floor 0 = 0%Z.
Proof. exact (floor_IZR 0). Qed.

(** X10.  The orientation of the panorama, read at the centre of each face
    (u = v = 0): the right, left, front and back centres are sampled in the
    middle row of the source, the top centre in the first row and the bottom
    centre in the last; the front and top centres are sampled in the middle
    column, the right centre three quarters and the left centre one quarter
    of the way across. *)
Theorem face_centre_samples (ldr : ndarray pixel) (f : Face) :
  (1 <= shape1 ldr)%Z -> (1 <= shape0 ldr)%Z ->
  let '(x, y, z) := face_dir f 0 0 in
  exists px : Z,
    (0 <= px < shape1 ldr)%Z /\
    sample_equirect ldr x y z = Ok (item ldr (axis_row (shape0 ldr) f) px) /\
    match axis_col (shape1 ldr) f with
    | Some col => px = col
    | None => True
    end.
Proof.
  intros Hw Hh. rewrite face_dir_centre.
  pose proof (normalize_axis f) as Hnorm.
  pose proof (tex_coords_axis f) as Htex.
  pose proof (pixel_index_bounds (shape1 ldr) (shape0 ldr)) as Hb.
  assert (Hk : forall n, (1 <= n)%Z -> 0 <= IZR (n - 1)) by (intros n Hn; apply IZR_le; lia).
  pose proof (Hk _ Hw) as Hkw. pose proof (Hk _ Hh) as Hkh.
  assert (Hidx : exists px : Z,
             pixel_index (shape1 ldr) (shape0 ldr) (tex_coords (face_axis f)) =
               (axis_row (shape0 ldr) f, px) /\
             match axis_col (shape1 ldr) f with
             | Some col => px = col
             | None => True
             end).
  { exists (snd (pixel_index (shape1 ldr) (shape0 ldr) (tex_coords (face_axis f)))).
    rewrite Htex. destruct f; unfold pixel_index, axis_row, axis_col; cbn [snd];
      rewrite ?Rmult_0_l, ?Rmult_1_l; rewrite ?int_nonneg by lra;
      rewrite ?floor_IZR, ?floor_0; split; reflexivity || exact I. }
  destruct Hidx as [px [Hidx Hcol]].
  destruct f; cbn [face_axis] in *; exists px; unfold sample_equirect; rewrite Hnorm;
    cbn [Py.bind]; rewrite Hidx;
    [ specialize (Hb 1 0 0 Hw Hh) | specialize (Hb (-1) 0 0 Hw Hh)
    | specialize (Hb 0 1 0 Hw Hh) | specialize (Hb 0 (-1) 0 Hw Hh)
    | specialize (Hb 0 0 1 Hw Hh) | specialize (Hb 0 0 (-1) Hw Hh) ];
    rewrite Hidx in Hb;
    (split; [lia | split; [apply getitem_in_bounds; lia | exact Hcol]]).
Qed.

Lemma face_centre_samples_witness :
  let '(x, y, z) := face_dir Right 0 0 in
  exists px : Z,
    (0 <= px < shape1 (ldr_of red_4x2))%Z /\
    sample_equirect (ldr_of red_4x2) x y z =
      Ok (item (ldr_of red_4x2) (axis_row (shape0 (ldr_of red_4x2)) Right) px) /\
    match axis_col (shape1 (ldr_of red_4x2)) Right with
    | Some col => px = col
    | None => True
    end.
Proof.
  apply (face_centre_samples (ldr_of red_4x2) Right); cbn; lia.
Defined.

Lemma floor_monotone (x y : R) : x <= y -> (floor x <= floor y)%Z.
Proof.
  intros Hxy. unfold floor.
  destruct (base_Int_part x) as [Hx _]. destruct (base_Int_part y) as [_ Hy].
  apply Z.lt_succ_r. apply lt_IZR. rewrite succ_IZR. lra.
Qed.

(** X11.  Looking further up never samples a lower row: of two directions
    with second components b <= b' in [-1, 1], the one with b' is sampled in
    a row of the source that is not below the row of the other; the row does
    not depend on the other two components. *)
Theorem higher_direction_samples_higher_row (w w' h : Z) (a b c a' b' c' : R) :
  (1 <= h)%Z -> -1 <= b -> b <= b' -> b' <= 1 ->
  (fst (pixel_index w' h (tex_coords (a', b', c'))) <=
   fst (pixel_index w h (tex_coords (a, b, c))))%Z.
Proof.
  intros Hh Hb Hbb Hb'.
  pose proof (tex_coords_bounds a b c) as Hr.
  pose proof (tex_coords_bounds a' b' c') as Hr'.
  unfold tex_coords, pixel_index in *. cbn [fst].
  destruct Hr as [_ Hv]. destruct Hr' as [_ Hv'].
  assert (Hk : 0 <= IZR (h - 1)) by (apply IZR_le; lia).
  assert (Hasin : asin b <= asin b').
  { apply sin_incr_0; try apply asin_bound.
    rewrite !sin_asin by lra. exact Hbb. }
  pose proof PI_RGT_0 as Hpi.
  assert (Hdiv : asin b / PI <= asin b' / PI).
  { unfold Rdiv. apply Rmult_le_compat_r; [left; now apply Rinv_0_lt_compat | exact Hasin]. }
  unfold Np.arcsin in *.
  rewrite !int_nonneg by nra. apply floor_monotone. nra.
Qed.

Lemma higher_direction_samples_higher_row_witness :
  (fst (pixel_index 4 2 (tex_coords (0, 1, 0)%R)) <=
   fst (pixel_index 4 2 (tex_coords (1, 0, 0)%R)))%Z.
Proof.
  apply (higher_direction_samples_higher_row 4 4 2 1 0 0 0 1 0); try lia; lra.
Defined.

(* ================================================================== *)
(** ** Further properties of the tonemapper *)

Lemma clamp01_monotone (x y : R) : x <= y -> clamp01 x <= clamp01 y.
Proof.
  intros Hxy. unfold clamp01.
  destruct (Rlt_dec x 0), (Rlt_dec y 0); try destruct (Rlt_dec 1 x);
    try destruct (Rlt_dec 1 y); lra.
Qed.

Lemma pow_monotone (x y e : R) : 0 <= x -> x <= y -> 0 <= e -> Np.pow x e <= Np.pow y e.
Proof.
  intros Hx Hxy He. unfold Np.pow.
  destruct (Rlt_dec 0 x) as [Hpx | Hnx], (Rlt_dec 0 y) as [Hpy | Hny]; try lra.
  - apply Rle_Rpower_l; lra.
  - left. unfold Rpower. apply exp_pos.
Qed.

Lemma tonemap_channel_spec_monotone (x y : R) :
  x <= y -> (tonemap_channel_spec x <= tonemap_channel_spec y)%Z.
Proof.
  intros Hxy. unfold tonemap_channel_spec. apply floor_monotone.
  apply Rmult_le_compat_r; [lra |].
  apply pow_monotone; [apply clamp01_range | apply clamp01_monotone; lra | lra].
Qed.

Lemma tonemap_channel_item (hdr : ndarray hdr_pixel) (i j : Z) (c : chan) :
  channel c (item (tonemap hdr) i j) = tonemap_channel_spec (channel c (item hdr i j)).
Proof.
  rewrite tonemap_item. unfold hdr_pixel in *.
  destruct (item hdr i j) as [[r g] b]. destruct c; reflexivity.
Qed.

(** X12.  The tonemapper is monotone in every channel: a channel value that
    is not smaller gives an 8-bit value that is not smaller, whatever the
    other channels and the position are. *)
Theorem tonemap_monotone (hdr hdr' : ndarray hdr_pixel) (i j i' j' : Z) (c : chan) :
  channel c (item hdr i j) <= channel c (item hdr' i' j') ->
  (channel c (item (tonemap hdr) i j) <= channel c (item (tonemap hdr') i' j'))%Z.
Proof.
  intros Hle. rewrite !tonemap_channel_item. now apply tonemap_channel_spec_monotone.
Qed.

Lemma tonemap_monotone_witness :
  (channel Ch0
     (item (tonemap (Np.stack3 2 4 (fun _ _ => 0.1%R) (fun _ _ => 0%R) (fun _ _ => 0%R)))
        0 0) <=
   channel Ch0
     (item (tonemap (Np.stack3 2 4 (fun _ _ => 0.3%R) (fun _ _ => 0%R) (fun _ _ => 0%R)))
        1 1))%Z.
Proof.
  apply (tonemap_monotone
           (Np.stack3 2 4 (fun _ _ => 0.1) (fun _ _ => 0) (fun _ _ => 0))
           (Np.stack3 2 4 (fun _ _ => 0.3) (fun _ _ => 0) (fun _ _ => 0))
           0 0 1 1 Ch0).
  cbn. lra.
Defined.

(** X13.  With the exposure factor 1.5 every channel value of at least 2/3
    saturates: it is tonemapped to 255. *)
Theorem tonemap_saturates (hdr : ndarray hdr_pixel) (i j : Z) (c : chan) :
  2 / 3 <= channel c (item hdr i j) ->
  channel c (item (tonemap hdr) i j) = 255%Z.
Proof.
  intros Hx. rewrite tonemap_channel_item.
  unfold tonemap_channel_spec, clamp01.
  destruct (Rlt_dec (1.5 * channel c (item hdr i j)) 0); [lra |].
  destruct (Rlt_dec 1 (1.5 * channel c (item hdr i j))) as [_ | Hle].
  - rewrite pow_one, Rmult_1_l. apply floor_IZR.
  - replace (1.5 * channel c (item hdr i j)) with 1 by lra.
    rewrite pow_one, Rmult_1_l. apply floor_IZR.
Qed.

Lemma tonemap_saturates_witness :
  channel Ch2 (item (tonemap (Np.stack3 2 4 (fun _ _ => 0) (fun _ _ => 0) (fun _ _ => 7)))
                 1 3) = 255%Z.
Proof.
  apply (tonemap_saturates
           (Np.stack3 2 4 (fun _ _ => 0) (fun _ _ => 0) (fun _ _ => 7)) 1 3 Ch2).
  cbn. lra.
Defined.

(** X14.  Every channel value that is zero or negative is tonemapped to 0. *)
Theorem tonemap_clips_negative (hdr : ndarray hdr_pixel) (i j : Z) (c : chan) :
  channel c (item hdr i j) <= 0 ->
  channel c (item (tonemap hdr) i j) = 0%Z.
Proof.
  intros Hx. rewrite tonemap_channel_item.
  unfold tonemap_channel_spec, clamp01.
  destruct (Rlt_dec (1.5 * channel c (item hdr i j)) 0) as [_ | Hge].
  - rewrite pow_zero, Rmult_0_l. apply floor_IZR.
  - destruct (Rlt_dec 1 (1.5 * channel c (item hdr i j))); [lra |].
    replace (1.5 * channel c (item hdr i j)) with 0 by lra.
    rewrite pow_zero, Rmult_0_l. apply floor_IZR.
Qed.

Lemma tonemap_clips_negative_witness :
  channel Ch1 (item (tonemap (Np.stack3 2 4 (fun _ _ => 0) (fun _ _ => -3) (fun _ _ => 7)))
                 0 2) = 0%Z.
Proof.
  apply (tonemap_clips_negative
           (Np.stack3 2 4 (fun _ _ => 0) (fun _ _ => -3) (fun _ _ => 7)) 0 2 Ch1).
  cbn. lra.
Defined.

(** X15.  The six direction functions describe one closed cube: extended to
    the border u, v = -1 or 1 of a face, two faces that meet give the same
    direction along their common edge, for each of the twelve edges. *)
Theorem faces_agree_on_edges (t : R) :
  (face_dir Front 1 t = face_dir Right (-1) t /\
   face_dir Right 1 t = face_dir Back (-1) t /\
   face_dir Back 1 t = face_dir Left (-1) t /\
   face_dir Left 1 t = face_dir Front (-1) t) /\
  (face_dir Top t 1 = face_dir Front t (-1) /\
   face_dir Top 1 t = face_dir Right (- t) (-1) /\
   face_dir Top t (-1) = face_dir Back (- t) (-1) /\
   face_dir Top (-1) t = face_dir Left t (-1)) /\
  (face_dir Bottom t (-1) = face_dir Front t 1 /\
   face_dir Bottom 1 t = face_dir Right t 1 /\
   face_dir Bottom t 1 = face_dir Back (- t) 1 /\
   face_dir Bottom (-1) t = face_dir Left (- t) 1).
Proof.
  cbn [face_dir dir_right dir_left dir_top dir_bottom dir_front dir_back].
  repeat split; apply triple_eq; lra.
Qed.
